(** * Single-qubit state engine (utils/quantumEngine.ts)

    Shallow embedding of the complex arithmetic, the gate catalogue, gate
    application, the Born-rule probability, measurement and the Bloch
    coordinates.  A TypeScript [number] is read as an exact real ([R]);
    [Math.sqrt], [Math.cos], [Math.sin], [Math.asin], [Math.min],
    [Math.max] are the corresponding functions on [R], and [Math.atan2] is
    written out by quadrant.  The ambient [Math.random()] draw of
    [measure] is made an explicit argument.

    The utilities around the engine follow: the circuit breaker, the
    analytics buffer, the rate limiter and the node and link updaters of
    the application, with integer clocks and counters as [Z]. *)

From Stdlib Require Import Reals.Reals Reals.Ratan Reals.Rtrigo_calc.
From Stdlib Require Import Lra.
From Stdlib Require Import ZArith List Bool Lia.
From Stdlib Require Import Strings.String Strings.Ascii DecimalString.

Open Scope R_scope.

(** ** Types (types.ts) *)

Record Complex : Type := mkComplex { r : R; i : R }.

Record QuantumState : Type := mkState { alpha : Complex; beta : Complex }.

Inductive GateType : Type := H | X | Y | Z | S | T.

(** The literal type [0 | 1] of a measurement outcome. *)
Inductive Outcome : Type := Outcome0 | Outcome1.

Definition outcome_value (o : Outcome) : nat :=
  match o with Outcome0 => 0%nat | Outcome1 => 1%nat end.

Record Measurement : Type :=
  mkMeasurement { collapsedState : QuantumState; outcome : Outcome }.

Record Coords : Type := mkCoords { cx : R; cy : R; cz : R }.

(** ** Complex number math *)

Definition createComplex (re im : R) : Complex := mkComplex re im.

Definition add (a b : Complex) : Complex :=
  mkComplex (r a + r b) (i a + i b).

Definition multiply (a b : Complex) : Complex :=
  mkComplex (r a * r b - i a * i b) (r a * i b + i a * r b).

Definition magnitude (c : Complex) : R := sqrt (r c * r c + i c * i c).

Definition expImaginary (theta : R) : Complex :=
  mkComplex (cos theta) (sin theta).

(** ** Quantum logic *)

Definition INITIAL_STATE : QuantumState :=
  mkState (createComplex 1 0) (createComplex 0 0).

Definition STATE_ONE : QuantumState :=
  mkState (createComplex 0 0) (createComplex 1 0).

Definition STATE_ZERO : QuantumState :=
  mkState (createComplex 1 0) (createComplex 0 0).

(** [Matrix2x2 = [[Complex, Complex], [Complex, Complex]]], row major. *)
Definition Matrix2x2 : Type := ((Complex * Complex) * (Complex * Complex))%type.

Definition m00 (m : Matrix2x2) : Complex := fst (fst m).
Definition m01 (m : Matrix2x2) : Complex := snd (fst m).
Definition m10 (m : Matrix2x2) : Complex := fst (snd m).
Definition m11 (m : Matrix2x2) : Complex := snd (snd m).

Definition ZERO : Complex := createComplex 0 0.
Definition ONE : Complex := createComplex 1 0.
Definition NEG_ONE : Complex := createComplex (-1) 0.
Definition I : Complex := createComplex 0 1.
Definition NEG_I : Complex := createComplex 0 (-1).
Definition INV_SQRT_2 : Complex := createComplex (1 / sqrt 2) 0.

Definition GATES (g : GateType) : Matrix2x2 :=
  match g with
  | H => ((INV_SQRT_2, INV_SQRT_2),
          (INV_SQRT_2, createComplex (-1 / sqrt 2) 0))
  | X => ((ZERO, ONE), (ONE, ZERO))
  | Y => ((ZERO, NEG_I), (I, ZERO))
  | Z => ((ONE, ZERO), (ZERO, NEG_ONE))
  | S => ((ONE, ZERO), (ZERO, I))
  | T => ((ONE, ZERO), (ZERO, expImaginary (PI / 4)))
  end.

Definition applyGate (state : QuantumState) (gate : GateType) : QuantumState :=
  let matrix := GATES gate in
  let newAlpha :=
    add (multiply (m00 matrix) (alpha state))
        (multiply (m01 matrix) (beta state)) in
  let newBeta :=
    add (multiply (m10 matrix) (alpha state))
        (multiply (m11 matrix) (beta state)) in
  mkState newAlpha newBeta.

(** ** Bloch sphere coordinates *)

(** [Math.atan2 y x] on the reals: the angle of the point [(x, y)] in
    [(-PI, PI]], with [atan2 0 0 = 0]. *)
Definition atan2 (y x : R) : R :=
  if Rlt_dec 0 x then atan (y / x)
  else if Rlt_dec x 0 then
         if Rle_dec 0 y then atan (y / x) + PI else atan (y / x) - PI
  else if Rlt_dec 0 y then PI / 2
  else if Rlt_dec y 0 then - (PI / 2)
  else 0.

Definition getBlochCoordinates (state : QuantumState) : Coords :=
  let magBeta := magnitude (beta state) in
  let clampedBeta := Rmin (Rmax magBeta 0) 1 in
  let theta := 2 * asin clampedBeta in
  let phaseAlpha := atan2 (i (alpha state)) (r (alpha state)) in
  let phaseBeta := atan2 (i (beta state)) (r (beta state)) in
  let phi := phaseBeta - phaseAlpha in
  let x := sin theta * cos phi in
  let y := sin theta * sin phi in
  let z := cos theta in
  mkCoords x y z.

Definition getProbability (state : QuantumState) : R :=
  let magBeta := magnitude (beta state) in
  magBeta * magBeta.

(** [measure] with its [Math.random()] draw [roll] made explicit. *)
Definition measure (state : QuantumState) (roll : R) : Measurement :=
  let probOne := getProbability state in
  if Rlt_dec roll probOne
  then mkMeasurement STATE_ONE Outcome1
  else mkMeasurement STATE_ZERO Outcome0.

(** ** Specification-side notions *)

(** [|alpha|^2 + |beta|^2], with [|c|] the engine's [magnitude]. *)
Definition normSq (s : QuantumState) : R :=
  magnitude (alpha s) * magnitude (alpha s)
  + magnitude (beta s) * magnitude (beta s).

Definition normalized (s : QuantumState) : Prop := normSq s = 1.

(** [x^2 + y^2 + z^2] of a Bloch point. *)
Definition sphereSq (c : Coords) : R := cx c * cx c + cy c * cy c + cz c * cz c.

(** The superposition reached from the canonical zero state by Hadamard,
    and the same followed by Pauli-Z. *)
Definition PLUS_STATE : QuantumState := applyGate STATE_ZERO H.
Definition MINUS_STATE : QuantumState := applyGate PLUS_STATE Z.

(** A state off the unit sphere of amplitudes: [alpha = 1], [beta = 2]. *)
Definition UNNORMALIZED_STATE : QuantumState :=
  mkState (createComplex 1 0) (createComplex 2 0).

(** The catalogue table of the specification, entry by entry. *)
Definition catalogue (g : GateType) : Matrix2x2 :=
  match g with
  | H => ((mkComplex (1 / sqrt 2) 0, mkComplex (1 / sqrt 2) 0),
          (mkComplex (1 / sqrt 2) 0, mkComplex (- (1 / sqrt 2)) 0))
  | X => ((mkComplex 0 0, mkComplex 1 0), (mkComplex 1 0, mkComplex 0 0))
  | Y => ((mkComplex 0 0, mkComplex 0 (-1)), (mkComplex 0 1, mkComplex 0 0))
  | Z => ((mkComplex 1 0, mkComplex 0 0), (mkComplex 0 0, mkComplex (-1) 0))
  | S => ((mkComplex 1 0, mkComplex 0 0), (mkComplex 0 0, mkComplex 0 1))
  | T => ((mkComplex 1 0, mkComplex 0 0),
          (mkComplex 0 0, mkComplex (cos (PI / 4)) (sin (PI / 4))))
  end.

(** * The utilities around the engine *)

(** [Date.now()] readings and counters are integers. *)
Abbreviation int := BinNums.Z.

(** ** Circuit breaker (utils/circuitBreaker.ts)

    The singleton's mutable [state] field is passed explicitly and each
    [Date.now()] reading is an argument. *)
Module CircuitBreaker.

Local Open Scope Z_scope.

Inductive Status : Type := closed | open | half_open.

Record CircuitBreakerState : Type := mkState {
  state : Status;
  failures : int;
  lastFailureTime : int;
  successCount : int
}.

Definition failureThreshold : int := 5.
Definition timeout : int := 60000.
Definition halfOpenSuccessThreshold : int := 2.

Definition initial : CircuitBreakerState := mkState closed 0 0 0.

Definition canMakeRequest (now : int) (st : CircuitBreakerState)
  : bool * CircuitBreakerState :=
  match state st with
  | closed => (true, st)
  | open =>
      if timeout <? now - lastFailureTime st
      then (true, mkState half_open (failures st) (lastFailureTime st) 0)
      else (false, st)
  | half_open => (true, st)
  end.

Definition recordSuccess (st : CircuitBreakerState) : CircuitBreakerState :=
  match state st with
  | half_open =>
      let successCount' := successCount st + 1 in
      if halfOpenSuccessThreshold <=? successCount'
      then mkState closed 0 (lastFailureTime st) 0
      else mkState half_open (failures st) (lastFailureTime st) successCount'
  | closed => mkState closed 0 (lastFailureTime st) (successCount st)
  | open => st
  end.

Definition recordFailure (now : int) (st : CircuitBreakerState)
  : CircuitBreakerState :=
  let failures' := failures st + 1 in
  match state st with
  | half_open => mkState open failures' now 0
  | closed =>
      if failureThreshold <=? failures'
      then mkState open failures' now (successCount st)
      else mkState closed failures' now (successCount st)
  | open => mkState open failures' now (successCount st)
  end.

Definition getState (st : CircuitBreakerState) : CircuitBreakerState :=
  mkState (state st) (failures st) (lastFailureTime st) (successCount st).

Definition reset (st : CircuitBreakerState) : CircuitBreakerState := initial.

(** The calls a client can make, and their effect on the breaker. *)
Inductive Call : Type :=
| CanMakeRequest (now : int)
| RecordSuccess
| RecordFailure (now : int)
| Reset.

Definition step (st : CircuitBreakerState) (c : Call) : CircuitBreakerState :=
  match c with
  | CanMakeRequest now => snd (canMakeRequest now st)
  | RecordSuccess => recordSuccess st
  | RecordFailure now => recordFailure now st
  | Reset => reset st
  end.

Definition run (calls : list Call) (st : CircuitBreakerState)
  : CircuitBreakerState :=
  fold_left step calls st.

(** What holds of the breaker after any calls from its initial state. *)
Definition invariant (st : CircuitBreakerState) : Prop :=
  0 <= failures st /\
  match state st with
  | closed => failures st < failureThreshold /\ successCount st = 0
  | open => successCount st = 0
  | half_open => 0 <= successCount st < halfOpenSuccessThreshold
  end.

End CircuitBreaker.

(** ** Analytics (utils/analytics.ts)

    The event buffer and the [enabled] flag of the singleton are passed
    explicitly; [Properties] stands for [Record<string, any>].  Writing to
    the console and [sendToAnalyticsService], whose body is empty, leave
    the object as it is. *)
Module Analytics.

(** [Array.prototype.slice(start)] with its relative start index. *)
Definition slice {A : Type} (start : int) (l : list A) : list A :=
  let len := Z.of_nat (List.length l) in
  let k := if (start <? 0)%Z then Z.max (len + start) 0 else Z.min start len in
  skipn (Z.to_nat k) l.

Section Events.

Variable Properties : Type.

Record AnalyticsEvent : Type := mkEvent {
  event : string;
  timestamp : int;
  properties : option Properties
}.

Record Analytics : Type := mkAnalytics {
  events : list AnalyticsEvent;
  enabled : bool
}.

Definition maxEvents : nat := 100.

Definition new : Analytics := mkAnalytics nil true.

Definition track (now : int) (ev : string) (props : option Properties)
           (a : Analytics) : Analytics :=
  if negb (enabled a) then a
  else
    let analyticsEvent := mkEvent ev now props in
    let pushed := events a ++ analyticsEvent :: nil in
    let kept :=
      if (maxEvents <? List.length pushed)%nat then tl pushed else pushed in
    mkAnalytics kept (enabled a).

(** [count] defaults to 20. *)
Definition getRecentEvents (count : option int) (a : Analytics)
  : list AnalyticsEvent :=
  let count := match count with Some c => c | None => 20%Z end in
  slice (- count)%Z (events a).

Definition clearEvents (a : Analytics) : Analytics :=
  mkAnalytics nil (enabled a).

Definition disable (a : Analytics) : Analytics :=
  mkAnalytics (events a) false.

Definition enable (a : Analytics) : Analytics :=
  mkAnalytics (events a) true.

Inductive Call : Type :=
| Track (now : int) (ev : string) (props : option Properties)
| ClearEvents
| Disable
| Enable.

Definition step (a : Analytics) (c : Call) : Analytics :=
  match c with
  | Track now ev props => track now ev props a
  | ClearEvents => clearEvents a
  | Disable => disable a
  | Enable => enable a
  end.

Definition run (calls : list Call) (a : Analytics) : Analytics :=
  fold_left step calls a.

End Events.

Arguments mkEvent {Properties}.
Arguments event {Properties}.
Arguments timestamp {Properties}.
Arguments properties {Properties}.
Arguments mkAnalytics {Properties}.
Arguments events {Properties}.
Arguments enabled {Properties}.
Arguments new {Properties}.
Arguments track {Properties}.
Arguments getRecentEvents {Properties}.
Arguments clearEvents {Properties}.
Arguments disable {Properties}.
Arguments enable {Properties}.
Arguments Track {Properties}.
Arguments ClearEvents {Properties}.
Arguments Disable {Properties}.
Arguments Enable {Properties}.
Arguments step {Properties}.
Arguments run {Properties}.

End Analytics.

(** ** Rate limiter (tests/rateLimiting.test.ts, class [RateLimiter])

    The private fields are passed explicitly and each [Date.now()]
    reading is an argument. *)
Module RateLimiter.

Local Open Scope Z_scope.

Record RateLimiter : Type := mkRateLimiter {
  lastCallTime : int;
  callCount : int;
  windowStart : int
}.

Record Result : Type := mkResult {
  allowed : bool;
  message : option string
}.

Definition MAX_CALLS_PER_MINUTE : int := 10.
Definition MIN_TIME_BETWEEN_CALLS : int := 2000.
Definition RATE_LIMIT_WINDOW : int := 60000.

(** The field initialisers, [now] being the [Date.now()] read for
    [windowStart]. *)
Definition new (now : int) : RateLimiter := mkRateLimiter 0 0 now.

(** [Math.ceil (x / 1000)] for an integer [x]. *)
Definition ceilSeconds (x : int) : int := - ((- x) / 1000).

(** An integer inside a template literal. *)
Definition show (n : int) : string := NilZero.string_of_int (Z.to_int n).

Definition plural (remaining : int) : string :=
  if 1 <? remaining then "s"%string else ""%string.

Definition waitMessage (remaining : int) : string :=
  ("Please wait " ++ show remaining ++ " second" ++ plural remaining
   ++ " before another computation.")%string.

Definition limitMessage (remaining : int) : string :=
  ("Rate limit reached. Please wait " ++ show remaining ++ " second"
   ++ plural remaining ++ " before trying again.")%string.

Definition checkRateLimit (now : int) (st : RateLimiter)
  : Result * RateLimiter :=
  let timeSinceLastCall := now - lastCallTime st in
  if timeSinceLastCall <? MIN_TIME_BETWEEN_CALLS then
    let remaining := ceilSeconds (MIN_TIME_BETWEEN_CALLS - timeSinceLastCall) in
    (mkResult false (Some (waitMessage remaining)), st)
  else
    let st1 :=
      if RATE_LIMIT_WINDOW <? now - windowStart st
      then mkRateLimiter (lastCallTime st) 0 now
      else st in
    if MAX_CALLS_PER_MINUTE <=? callCount st1 then
      let remaining :=
        ceilSeconds (RATE_LIMIT_WINDOW - (now - windowStart st1)) in
      (mkResult false (Some (limitMessage remaining)), st1)
    else (mkResult true None, st1).

Definition recordCall (now : int) (st : RateLimiter) : RateLimiter :=
  mkRateLimiter now (callCount st + 1) (windowStart st).

(** A caller that checks at time [now] and records the call when it is
    allowed. *)
Definition attempt (st : RateLimiter) (now : int) : RateLimiter :=
  let (result, st1) := checkRateLimit now st in
  if allowed result then recordCall now st1 else st1.

Definition attempts (times : list int) (st : RateLimiter) : RateLimiter :=
  fold_left attempt times st.

End RateLimiter.

(** ** The application's use of the engine (index.tsx)

    The functions below are the pure parts of the component: the updaters
    handed to [setNodes] and [setLinks], with the selection they close
    over as an argument, and the values [NodeComponent] and the prompt
    builder derive from a node. *)
Module App.

(** [a < b] and [a <= b] on numbers, as booleans. *)
Definition Rltb (a b : R) : bool := if Rlt_dec a b then true else false.
Definition Rleb (a b : R) : bool := if Rle_dec a b then true else false.

Inductive NodeType : Type := person | passion | interest | dream.

Record QuantumNode : Type := mkNode {
  id : string;
  label : string;
  type : NodeType;
  x : R;
  y : R;
  phase : R;
  state : QuantumState
}.

Record EntanglementLink : Type := mkLink {
  sourceId : string;
  targetId : string;
  strength : R
}.

(** [{ ...n, state: s }] *)
Definition withState (n : QuantumNode) (s : QuantumState) : QuantumNode :=
  mkNode (id n) (label n) (type n) (x n) (y n) (phase n) s.

(** The node [createNode] appends once the label has been validated:
    [uuid] is [crypto.randomUUID()] and [roll] the [Math.random()] of its
    [phase]. *)
Definition createdNode (uuid lbl : string) (newNodeType : NodeType)
           (cx0 cy0 roll : R) : QuantumNode :=
  mkNode uuid lbl newNodeType cx0 cy0 (roll * 2) INITIAL_STATE.

Definition appendNode (newNode : QuantumNode) (prev : list QuantumNode)
  : list QuantumNode :=
  prev ++ newNode :: nil.

(** [deleteNode]: the updaters of the nodes and of the links. *)
Definition deleteNode_nodes (id0 : string) (prev : list QuantumNode)
  : list QuantumNode :=
  filter (fun n => negb (String.eqb (id n) id0)) prev.

Definition deleteNode_links (id0 : string) (prev : list EntanglementLink)
  : list EntanglementLink :=
  filter (fun l => negb (String.eqb (sourceId l) id0)
                   && negb (String.eqb (targetId l) id0)) prev.

(** [!selectedNodeId] holds of [null] and of the empty string. *)
Definition selected (selectedNodeId : option string) : option string :=
  match selectedNodeId with
  | Some sel => if String.eqb sel "" then None else Some sel
  | None => None
  end.

Definition applyNodeGate (selectedNodeId : option string) (gate : GateType)
           (prev : list QuantumNode) : list QuantumNode :=
  match selected selectedNodeId with
  | None => prev
  | Some sel =>
      map (fun n => if String.eqb (id n) sel
                    then withState n (applyGate (state n) gate)
                    else n) prev
  end.

(** [measureNode]: the new nodes and the outcome reported in the
    history, or [None] when it returns early; [roll] is the random draw
    of [measure]. *)
Definition measureNode (selectedNodeId : option string) (roll : R)
           (nodes : list QuantumNode) : option (list QuantumNode * Outcome) :=
  match selected selectedNodeId with
  | None => None
  | Some sel =>
      match find (fun n => String.eqb (id n) sel) nodes with
      | None => None
      | Some node =>
          let m := measure (state node) roll in
          Some (map (fun n => if String.eqb (id n) sel
                              then withState n (collapsedState m)
                              else n) nodes,
                outcome m)
      end
  end.

(** [NodeComponent]: the values driving the drawing of a node. *)
Definition probability (node : QuantumNode) : R := getProbability (state node).

Definition isSuperposition (node : QuantumNode) : bool :=
  Rltb 0.1 (probability node) && Rltb (probability node) 0.9.

Definition opacity (node : QuantumNode) : R := 0.4 + probability node * 0.6.

(** The five narrative readings of a probability in the prompt: "a core
    part of who they are", "growing in their life", "emerging",
    "exists in superposition" and "a faint possibility". *)
Inductive ProbContext : Type :=
  core | growing | emerging | superposition | faint.

Definition probContext (p : R) : ProbContext :=
  if Rleb 0.8 p then core
  else if Rleb 0.4 p && Rltb p 0.8 then growing
  else if Rleb 0.1 p && Rltb p 0.4 then emerging
  else if Rleb 0.4 p && Rleb p 0.6 then superposition
  else faint.

(** Every link joins two nodes that exist. *)
Definition linksResolved (nodes : list QuantumNode)
           (links : list EntanglementLink) : Prop :=
  forall l, In l links ->
    (exists s, In s nodes /\ id s = sourceId l) /\
    (exists t, In t nodes /\ id t = targetId l).

Definition allNormalized (nodes : list QuantumNode) : Prop :=
  forall n, In n nodes -> normalized (state n).

End App.

(** ** Auxiliary facts *)

Lemma Complex_eq (a b : Complex) : r a = r b -> i a = i b -> a = b.
Proof. destruct a, b; simpl; intros -> ->; reflexivity. Qed.

Lemma sumsq_nonneg (a b : R) : 0 <= a * a + b * b.
Proof. nra. Qed.

Lemma magnitude_sq (c : Complex) :
  magnitude c * magnitude c = r c * r c + i c * i c.
Proof. unfold magnitude. apply sqrt_sqrt, sumsq_nonneg. Qed.

Lemma magnitude_nonneg (c : Complex) : 0 <= magnitude c.
Proof. apply sqrt_pos. Qed.

Lemma normSq_eq (s : QuantumState) :
  normSq s = r (alpha s) * r (alpha s) + i (alpha s) * i (alpha s)
             + (r (beta s) * r (beta s) + i (beta s) * i (beta s)).
Proof. unfold normSq. rewrite !magnitude_sq. reflexivity. Qed.

Lemma getProbability_eq (s : QuantumState) :
  getProbability s = r (beta s) * r (beta s) + i (beta s) * i (beta s).
Proof. unfold getProbability. apply magnitude_sq. Qed.

Lemma sqrt2_pos : 0 < sqrt 2.
Proof. apply sqrt_lt_R0; lra. Qed.

Lemma inv_sqrt2_sq : (1 / sqrt 2) * (1 / sqrt 2) = 1 / 2.
Proof.
  pose proof sqrt2_pos as Hp.
  assert (Hs : sqrt 2 * sqrt 2 = 2) by (apply sqrt_sqrt; lra).
  replace (1 / sqrt 2 * (1 / sqrt 2)) with (1 / (sqrt 2 * sqrt 2))
    by (field; lra).
  rewrite Hs. reflexivity.
Qed.

Lemma neg_inv_sqrt2 : -1 / sqrt 2 = - (1 / sqrt 2).
Proof. pose proof sqrt2_pos. field; lra. Qed.

Lemma cos_sin_sq (t : R) : cos t * cos t + sin t * sin t = 1.
Proof. pose proof (sin2_cos2 t) as E. unfold Rsqr in E. lra. Qed.

Lemma normalized_STATE_ZERO : normalized STATE_ZERO.
Proof. unfold normalized. rewrite normSq_eq. simpl. lra. Qed.

Lemma normalized_STATE_ONE : normalized STATE_ONE.
Proof. unfold normalized. rewrite normSq_eq. simpl. lra. Qed.

(** ** Gate application *)

(** C1: every gate of the catalogue maps a state with
    [|alpha|^2 + |beta|^2 = 1] to a state with the same property. *)
Theorem applyGate_preserves_norm (s : QuantumState) (g : GateType) :
  normalized s -> normalized (applyGate s g).
Proof.
  unfold normalized. rewrite !normSq_eq.
  destruct s as [[ar ai] [br bi]]. intros Hn. simpl in Hn.
  destruct g; simpl.
  - rewrite neg_inv_sqrt2. pose proof inv_sqrt2_sq as Hk.
    set (k := 1 / sqrt 2) in *.
    replace ((k * ar - 0 * ai + (k * br - 0 * bi)) *
              (k * ar - 0 * ai + (k * br - 0 * bi)) +
              (k * ai + 0 * ar + (k * bi + 0 * br)) *
              (k * ai + 0 * ar + (k * bi + 0 * br)) +
              ((k * ar - 0 * ai + (- k * br - 0 * bi)) *
               (k * ar - 0 * ai + (- k * br - 0 * bi)) +
               (k * ai + 0 * ar + (- k * bi + 0 * br)) *
               (k * ai + 0 * ar + (- k * bi + 0 * br))))
      with (2 * (k * k) * (ar * ar + ai * ai + (br * br + bi * bi))) by ring.
    rewrite Hk, Hn. lra.
  - lra.
  - lra.
  - lra.
  - lra.
  - pose proof (cos_sin_sq (PI / 4)) as Hcs.
    set (c := cos (PI / 4)) in *. set (d := sin (PI / 4)) in *.
    replace ((1 * ar - 0 * ai + (0 * br - 0 * bi)) *
              (1 * ar - 0 * ai + (0 * br - 0 * bi)) +
              (1 * ai + 0 * ar + (0 * bi + 0 * br)) *
              (1 * ai + 0 * ar + (0 * bi + 0 * br)) +
              ((0 * ar - 0 * ai + (c * br - d * bi)) *
               (0 * ar - 0 * ai + (c * br - d * bi)) +
               (0 * ai + 0 * ar + (c * bi + d * br)) *
               (0 * ai + 0 * ar + (c * bi + d * br))))
      with (ar * ar + ai * ai + (c * c + d * d) * (br * br + bi * bi)) by ring.
    rewrite Hcs. lra.
Qed.

Lemma applyGate_preserves_norm_witness :
  normalized STATE_ZERO /\ normalized (applyGate STATE_ZERO H).
Proof.
  split.
  - exact normalized_STATE_ZERO.
  - apply (applyGate_preserves_norm STATE_ZERO H). exact normalized_STATE_ZERO.
Defined.

Lemma GATES_catalogue (g : GateType) : GATES g = catalogue g.
Proof.
  destruct g; unfold GATES, catalogue, INV_SQRT_2, ZERO, ONE, NEG_ONE, I,
    NEG_I, expImaginary, createComplex; try reflexivity.
  rewrite neg_inv_sqrt2. reflexivity.
Qed.

(** C2: [applyGate] is the matrix-vector product of the catalogue matrix of
    the gate with [(alpha, beta)], built from [add] and [multiply]; the
    matrix the code looks up is the one of the specification's table. *)
Theorem applyGate_matrix_product (s : QuantumState) (g : GateType) :
  GATES g = catalogue g /\
  applyGate s g =
    mkState (add (multiply (m00 (catalogue g)) (alpha s))
                 (multiply (m01 (catalogue g)) (beta s)))
            (add (multiply (m10 (catalogue g)) (alpha s))
                 (multiply (m11 (catalogue g)) (beta s))).
Proof.
  split.
  - apply GATES_catalogue.
  - unfold applyGate. rewrite GATES_catalogue. reflexivity.
Qed.

(** C8: Pauli-X applied twice, and Pauli-Z applied twice, give the state
    back. *)
Theorem applyGate_X_Z_involutive (s : QuantumState) :
  applyGate (applyGate s X) X = s /\ applyGate (applyGate s Z) Z = s.
Proof.
  destruct s as [[ar ai] [br bi]].
  split; unfold applyGate; simpl; f_equal; apply Complex_eq; simpl; ring.
Qed.

(** ** Probability and measurement *)

Lemma getProbability_STATE_ZERO : getProbability STATE_ZERO = 0.
Proof. rewrite getProbability_eq. simpl. ring. Qed.

Lemma getProbability_STATE_ONE : getProbability STATE_ONE = 1.
Proof. rewrite getProbability_eq. simpl. ring. Qed.

Lemma getProbability_nonneg (s : QuantumState) : 0 <= getProbability s.
Proof. rewrite getProbability_eq. apply sumsq_nonneg. Qed.

Lemma measure_one (s : QuantumState) (u : R) :
  u < getProbability s -> measure s u = mkMeasurement STATE_ONE Outcome1.
Proof. intros Hu. unfold measure. destruct (Rlt_dec _ _); [reflexivity | lra]. Qed.

Lemma measure_zero (s : QuantumState) (u : R) :
  ~ u < getProbability s -> measure s u = mkMeasurement STATE_ZERO Outcome0.
Proof.
  intros Hu. unfold measure. destruct (Rlt_dec _ _); [contradiction | reflexivity].
Qed.

(** C3: with the random draw [u] in [[0, 1)], [measure] returns outcome 1
    and the canonical one state exactly when [u < getProbability state],
    and outcome 0 with the canonical zero state otherwise; the canonical
    zero state always measures 0 and the canonical one state always 1. *)
Theorem measure_spec (s : QuantumState) (u : R) :
  0 <= u < 1 ->
  (measure s u = mkMeasurement (mkState (mkComplex 0 0) (mkComplex 1 0)) Outcome1
     <-> u < getProbability s) /\
  (~ u < getProbability s ->
     measure s u = mkMeasurement (mkState (mkComplex 1 0) (mkComplex 0 0)) Outcome0) /\
  measure STATE_ZERO u = mkMeasurement STATE_ZERO Outcome0 /\
  measure STATE_ONE u = mkMeasurement STATE_ONE Outcome1.
Proof.
  intros [Hu0 Hu1]. repeat split.
  - intros Hm. destruct (Rlt_dec u (getProbability s)) as [Hlt | Hge]; [exact Hlt|].
    rewrite (measure_zero s u Hge) in Hm. discriminate Hm.
  - apply measure_one.
  - apply measure_zero.
  - apply measure_zero. rewrite getProbability_STATE_ZERO. lra.
  - apply measure_one. rewrite getProbability_STATE_ONE. lra.
Qed.

Lemma measure_spec_witness :
  measure STATE_ONE (1 / 2) = mkMeasurement STATE_ONE Outcome1.
Proof.
  assert (Hu : 0 <= 1 / 2 < 1) by lra.
  exact (proj2 (proj2 (proj2 (measure_spec STATE_ONE (1 / 2) Hu)))).
Defined.

(** C5: [getProbability] is [magnitude beta] squared, for every state; it
    lies in [[0, 1]] on normalized states, is 0 on the canonical zero state
    and 1 on the canonical one state. *)
Theorem getProbability_spec (s : QuantumState) :
  getProbability s = magnitude (beta s) * magnitude (beta s) /\
  (normalized s -> 0 <= getProbability s <= 1) /\
  getProbability STATE_ZERO = 0 /\
  getProbability STATE_ONE = 1.
Proof.
  split; [reflexivity|]. split; [|split].
  - unfold normalized. rewrite normSq_eq. intros Hn.
    pose proof (getProbability_nonneg s) as H0.
    rewrite getProbability_eq in *.
    pose proof (sumsq_nonneg (r (alpha s)) (i (alpha s))). lra.
  - apply getProbability_STATE_ZERO.
  - apply getProbability_STATE_ONE.
Qed.

Lemma getProbability_spec_witness :
  normalized STATE_ONE /\ 0 <= getProbability STATE_ONE <= 1.
Proof.
  split.
  - exact normalized_STATE_ONE.
  - apply (proj1 (proj2 (getProbability_spec STATE_ONE))).
    exact normalized_STATE_ONE.
Defined.

(** ** Bloch coordinates *)

Lemma spherical_unit (theta phi : R) :
  (sin theta * cos phi) * (sin theta * cos phi)
  + (sin theta * sin phi) * (sin theta * sin phi)
  + cos theta * cos theta = 1.
Proof.
  pose proof (cos_sin_sq theta) as Ht. pose proof (cos_sin_sq phi) as Hp.
  replace (sin theta * cos phi * (sin theta * cos phi) +
           sin theta * sin phi * (sin theta * sin phi) + cos theta * cos theta)
    with (sin theta * sin theta * (cos phi * cos phi + sin phi * sin phi)
          + cos theta * cos theta) by ring.
  rewrite Hp. lra.
Qed.

(** The clamp and the spherical parametrisation put the point on the unit
    sphere whatever the state is. *)
Lemma getBlochCoordinates_on_sphere (s : QuantumState) :
  sphereSq (getBlochCoordinates s) = 1.
Proof. unfold sphereSq, getBlochCoordinates. simpl. apply spherical_unit. Qed.

Lemma sq_le_1_bounds (a : R) : a * a <= 1 -> -1 <= a <= 1.
Proof. intros Ha. split; nra. Qed.

Lemma clamp_id (m : R) : 0 <= m <= 1 -> Rmin (Rmax m 0) 1 = m.
Proof.
  intros [H0 H1]. rewrite Rmax_left by exact H0. apply Rmin_left. exact H1.
Qed.

Lemma clamp_above (m : R) : 1 <= m -> Rmin (Rmax m 0) 1 = 1.
Proof.
  intros H1. rewrite Rmax_left by lra. apply Rmin_right. exact H1.
Qed.

Lemma atan2_0_pos (x : R) : 0 < x -> atan2 0 x = 0.
Proof.
  intros Hx. unfold atan2. destruct (Rlt_dec 0 x); [|contradiction].
  unfold Rdiv. rewrite Rmult_0_l. apply atan_0.
Qed.

Lemma atan2_0_neg (x : R) : x < 0 -> atan2 0 x = PI.
Proof.
  intros Hx. unfold atan2.
  destruct (Rlt_dec 0 x); [lra|].
  destruct (Rlt_dec x 0); [|contradiction].
  destruct (Rle_dec 0 0); [|lra].
  unfold Rdiv. rewrite Rmult_0_l, atan_0. ring.
Qed.

Lemma atan2_0_0 : atan2 0 0 = 0.
Proof.
  unfold atan2. repeat (destruct (Rlt_dec _ _); [lra|]). reflexivity.
Qed.

(** C7: on a normalized state the Bloch point has every coordinate in
    [[-1, 1]] and lies on the unit sphere. *)
Theorem getBlochCoordinates_unit (s : QuantumState) :
  normalized s ->
  -1 <= cx (getBlochCoordinates s) <= 1 /\
  -1 <= cy (getBlochCoordinates s) <= 1 /\
  -1 <= cz (getBlochCoordinates s) <= 1 /\
  cx (getBlochCoordinates s) * cx (getBlochCoordinates s)
  + cy (getBlochCoordinates s) * cy (getBlochCoordinates s)
  + cz (getBlochCoordinates s) * cz (getBlochCoordinates s) = 1.
Proof.
  intros _. pose proof (getBlochCoordinates_on_sphere s) as Hs.
  unfold sphereSq in Hs.
  set (c := getBlochCoordinates s) in *.
  repeat split; try exact Hs; try (apply sq_le_1_bounds; nra).
Qed.

Lemma getBlochCoordinates_unit_witness :
  normalized STATE_ONE /\ -1 <= cz (getBlochCoordinates STATE_ONE) <= 1.
Proof.
  split.
  - exact normalized_STATE_ONE.
  - exact (proj1 (proj2 (proj2
             (getBlochCoordinates_unit STATE_ONE normalized_STATE_ONE)))).
Defined.

Lemma inv_sqrt2_pos : 0 < 1 / sqrt 2.
Proof. pose proof sqrt2_pos. apply Rdiv_lt_0_compat; lra. Qed.

Lemma inv_sqrt2_le_1 : 1 / sqrt 2 <= 1.
Proof. pose proof inv_sqrt2_pos. pose proof inv_sqrt2_sq. nra. Qed.

Lemma asin_inv_sqrt2' : asin (1 / sqrt 2) = PI / 4.
Proof. unfold Rdiv. rewrite Rmult_1_l. apply asin_inv_sqrt2. Qed.

Lemma PLUS_STATE_eq :
  PLUS_STATE = mkState (mkComplex (1 / sqrt 2) 0) (mkComplex (1 / sqrt 2) 0).
Proof.
  unfold PLUS_STATE, applyGate. simpl. f_equal; apply Complex_eq; simpl; ring.
Qed.

Lemma MINUS_STATE_eq :
  MINUS_STATE = mkState (mkComplex (1 / sqrt 2) 0) (mkComplex (- (1 / sqrt 2)) 0).
Proof.
  unfold MINUS_STATE. rewrite PLUS_STATE_eq. unfold applyGate. simpl.
  f_equal; apply Complex_eq; simpl; ring.
Qed.

Lemma magnitude_real (a : R) : 0 <= a -> magnitude (mkComplex a 0) = a.
Proof.
  intros Ha. unfold magnitude. simpl.
  replace (a * a + 0 * 0) with (a * a) by ring. apply sqrt_square. exact Ha.
Qed.

Lemma magnitude_real_neg (a : R) : 0 <= a -> magnitude (mkComplex (- a) 0) = a.
Proof.
  intros Ha. unfold magnitude. simpl.
  replace (- a * - a + 0 * 0) with (a * a) by ring. apply sqrt_square. exact Ha.
Qed.

Lemma getBlochCoordinates_STATE_ZERO :
  getBlochCoordinates STATE_ZERO = mkCoords 0 0 1.
Proof.
  unfold getBlochCoordinates, STATE_ZERO, createComplex. simpl beta. simpl alpha.
  rewrite magnitude_real by lra. rewrite clamp_id by lra.
  rewrite asin_0, Rmult_0_r, sin_0, cos_0. f_equal; ring.
Qed.

Lemma getBlochCoordinates_STATE_ONE :
  getBlochCoordinates STATE_ONE = mkCoords 0 0 (-1).
Proof.
  unfold getBlochCoordinates, STATE_ONE, createComplex. simpl beta. simpl alpha.
  rewrite magnitude_real by lra. rewrite clamp_id by lra.
  rewrite asin_1. replace (2 * (PI / 2)) with PI by field.
  rewrite sin_PI, cos_PI. f_equal; ring.
Qed.

Lemma getBlochCoordinates_PLUS_STATE :
  getBlochCoordinates PLUS_STATE = mkCoords 1 0 0.
Proof.
  pose proof inv_sqrt2_pos as Hp. pose proof inv_sqrt2_le_1 as Hl.
  rewrite PLUS_STATE_eq. unfold getBlochCoordinates. simpl beta. simpl alpha.
  simpl r. simpl i.
  rewrite magnitude_real by lra. rewrite clamp_id by lra.
  rewrite asin_inv_sqrt2'. replace (2 * (PI / 4)) with (PI / 2) by field.
  rewrite sin_PI2, cos_PI2, atan2_0_pos by exact Hp.
  rewrite Rminus_diag, cos_0, sin_0. f_equal; ring.
Qed.

Lemma getBlochCoordinates_MINUS_STATE :
  getBlochCoordinates MINUS_STATE = mkCoords (-1) 0 0.
Proof.
  pose proof inv_sqrt2_pos as Hp. pose proof inv_sqrt2_le_1 as Hl.
  rewrite MINUS_STATE_eq. unfold getBlochCoordinates. simpl beta. simpl alpha.
  simpl r. simpl i.
  rewrite magnitude_real_neg by lra. rewrite clamp_id by lra.
  rewrite asin_inv_sqrt2'. replace (2 * (PI / 4)) with (PI / 2) by field.
  rewrite sin_PI2, cos_PI2.
  rewrite (atan2_0_pos (1 / sqrt 2)) by exact Hp.
  rewrite (atan2_0_neg (- (1 / sqrt 2))) by lra.
  rewrite Rminus_0_r, cos_PI, sin_PI. f_equal; ring.
Qed.

(** C6: the canonical zero state is the north pole [(0, 0, 1)], the
    canonical one state the south pole [(0, 0, -1)], and Hadamard of the
    canonical zero state lies on the equator: [z = 0] and [x^2 + y^2 = 1]. *)
Theorem getBlochCoordinates_poles_equator :
  getBlochCoordinates STATE_ZERO = mkCoords 0 0 1 /\
  getBlochCoordinates STATE_ONE = mkCoords 0 0 (-1) /\
  cz (getBlochCoordinates (applyGate STATE_ZERO H)) = 0 /\
  cx (getBlochCoordinates (applyGate STATE_ZERO H))
    * cx (getBlochCoordinates (applyGate STATE_ZERO H))
  + cy (getBlochCoordinates (applyGate STATE_ZERO H))
    * cy (getBlochCoordinates (applyGate STATE_ZERO H)) = 1.
Proof.
  fold PLUS_STATE. rewrite getBlochCoordinates_PLUS_STATE. simpl.
  repeat split.
  - apply getBlochCoordinates_STATE_ZERO.
  - apply getBlochCoordinates_STATE_ONE.
  - ring.
Qed.

(** C10: when [magnitude beta <= 1] the clamp is the identity and the
    height of the Bloch point is [1 - 2 * getProbability state]. *)
Theorem getBlochCoordinates_z_probability (s : QuantumState) :
  magnitude (beta s) <= 1 ->
  cz (getBlochCoordinates s) = 1 - 2 * getProbability s.
Proof.
  intros Hm. pose proof (magnitude_nonneg (beta s)) as H0.
  unfold getBlochCoordinates, getProbability. simpl cz.
  rewrite clamp_id by lra.
  rewrite cos_2a_sin, sin_asin by lra. ring.
Qed.

Lemma getBlochCoordinates_z_probability_witness :
  magnitude (beta STATE_ONE) <= 1 /\
  cz (getBlochCoordinates STATE_ONE) = 1 - 2 * getProbability STATE_ONE.
Proof.
  assert (Hm : magnitude (beta STATE_ONE) <= 1).
  { unfold STATE_ONE, createComplex. simpl beta.
    rewrite magnitude_real by lra. lra. }
  split.
  - exact Hm.
  - exact (getBlochCoordinates_z_probability STATE_ONE Hm).
Defined.

(** ** Phase gates *)

Lemma phase_multiply_sq (c d br bi : R) :
  c * c + d * d = 1 ->
  (c * br - d * bi) * (c * br - d * bi) + (c * bi + d * br) * (c * bi + d * br)
  = br * br + bi * bi.
Proof.
  intros Hcd.
  replace ((c * br - d * bi) * (c * br - d * bi)
           + (c * bi + d * br) * (c * bi + d * br))
    with ((c * c + d * d) * (br * br + bi * bi)) by ring.
  rewrite Hcd. ring.
Qed.

Lemma getProbability_phase (s : QuantumState) (c d : R) :
  c * c + d * d = 1 ->
  getProbability
    (mkState (add (multiply ONE (alpha s)) (multiply ZERO (beta s)))
             (add (multiply ZERO (alpha s)) (multiply (mkComplex c d) (beta s))))
  = getProbability s.
Proof.
  intros Hcd. rewrite !getProbability_eq.
  destruct s as [[ar ai] [br bi]]. simpl.
  rewrite <- (phase_multiply_sq c d br bi Hcd). ring.
Qed.

Lemma applyGate_phase_alpha (s : QuantumState) :
  add (multiply ONE (alpha s)) (multiply ZERO (beta s)) = alpha s.
Proof.
  destruct s as [[ar ai] [br bi]]. apply Complex_eq; simpl; ring.
Qed.

Lemma getProbability_PLUS_STATE : getProbability PLUS_STATE = 1 / 2.
Proof.
  rewrite PLUS_STATE_eq, getProbability_eq. simpl.
  rewrite inv_sqrt2_sq. ring.
Qed.

(** C9: the phase gates Z, S and T leave [getProbability] (and the first
    amplitude) unchanged on every state; after H then Z from the canonical
    zero state the probability is [1/2], the Bloch height stays 0 and the
    Bloch [(x, y)] has moved from [(1, 0)] to [(-1, 0)]. *)
Theorem phase_gates_keep_probability :
  (forall s : QuantumState,
     getProbability (applyGate s Z) = getProbability s /\
     getProbability (applyGate s S) = getProbability s /\
     getProbability (applyGate s T) = getProbability s) /\
  (forall s : QuantumState,
     alpha (applyGate s Z) = alpha s /\
     alpha (applyGate s S) = alpha s /\
     alpha (applyGate s T) = alpha s) /\
  getProbability (applyGate STATE_ZERO H) = 1 / 2 /\
  getProbability (applyGate (applyGate STATE_ZERO H) Z) = 1 / 2 /\
  cz (getBlochCoordinates (applyGate STATE_ZERO H)) = 0 /\
  cz (getBlochCoordinates (applyGate (applyGate STATE_ZERO H) Z)) = 0 /\
  (cx (getBlochCoordinates (applyGate (applyGate STATE_ZERO H) Z)),
   cy (getBlochCoordinates (applyGate (applyGate STATE_ZERO H) Z)))
  <> (cx (getBlochCoordinates (applyGate STATE_ZERO H)),
      cy (getBlochCoordinates (applyGate STATE_ZERO H))).
Proof.
  assert (Hphase : forall s : QuantumState,
     getProbability (applyGate s Z) = getProbability s /\
     getProbability (applyGate s S) = getProbability s /\
     getProbability (applyGate s T) = getProbability s).
  { intros s. repeat split.
    - apply (getProbability_phase s (-1) 0). ring.
    - apply (getProbability_phase s 0 1). ring.
    - apply (getProbability_phase s (cos (PI / 4)) (sin (PI / 4))).
      apply cos_sin_sq. }
  split; [exact Hphase|].
  split; [intros s; repeat split; apply applyGate_phase_alpha|].
  fold PLUS_STATE. fold MINUS_STATE.
  rewrite getBlochCoordinates_PLUS_STATE, getBlochCoordinates_MINUS_STATE.
  simpl. repeat split.
  - apply getProbability_PLUS_STATE.
  - unfold MINUS_STATE. rewrite (proj1 (Hphase PLUS_STATE)).
    apply getProbability_PLUS_STATE.
  - intros Heq. injection Heq as Hx. lra.
Qed.

(** ** States that are not normalized *)

Lemma UNNORMALIZED_STATE_normSq : normSq UNNORMALIZED_STATE = 5.
Proof. rewrite normSq_eq. simpl. ring. Qed.

Lemma getProbability_UNNORMALIZED_STATE : getProbability UNNORMALIZED_STATE = 4.
Proof. rewrite getProbability_eq. simpl. ring. Qed.

Lemma getBlochCoordinates_UNNORMALIZED_STATE :
  getBlochCoordinates UNNORMALIZED_STATE = mkCoords 0 0 (-1).
Proof.
  unfold getBlochCoordinates, UNNORMALIZED_STATE, createComplex.
  simpl beta. simpl alpha. simpl r. simpl i.
  rewrite magnitude_real by lra. rewrite clamp_above by lra.
  rewrite asin_1. replace (2 * (PI / 2)) with PI by field.
  rewrite sin_PI, cos_PI. f_equal; ring.
Qed.

(** C4, as stated, fails: no state, normalized or not, has a probability
    outside [[0, 1]] together with a Bloch point off the unit sphere,
    because no state at all has a Bloch point off the unit sphere. *)
Lemma unnormalized_bloch_never_off_sphere :
  ~ (exists s : QuantumState,
       normSq s <> 1 /\
       ~ (0 <= getProbability s <= 1) /\
       cx (getBlochCoordinates s) * cx (getBlochCoordinates s)
       + cy (getBlochCoordinates s) * cy (getBlochCoordinates s)
       + cz (getBlochCoordinates s) * cz (getBlochCoordinates s) <> 1).
Proof.
  intros [s [_ [_ Hoff]]]. apply Hoff.
  exact (getBlochCoordinates_on_sphere s).
Qed.

(** C4, amended: [getProbability], [measure] and [getBlochCoordinates]
    return a result on every state; on the state [alpha = 1], [beta = 2],
    which is not normalized, the probability is 4, outside [[0, 1]], and
    every draw below 1 measures outcome 1; the Bloch point, here the south
    pole, is on the unit sphere for every state. *)
Theorem unnormalized_state_results :
  normSq UNNORMALIZED_STATE = 5 /\
  getProbability UNNORMALIZED_STATE = 4 /\
  (forall u : R, u < 1 ->
     measure UNNORMALIZED_STATE u = mkMeasurement STATE_ONE Outcome1) /\
  getBlochCoordinates UNNORMALIZED_STATE = mkCoords 0 0 (-1) /\
  (forall s : QuantumState,
     cx (getBlochCoordinates s) * cx (getBlochCoordinates s)
     + cy (getBlochCoordinates s) * cy (getBlochCoordinates s)
     + cz (getBlochCoordinates s) * cz (getBlochCoordinates s) = 1).
Proof.
  repeat split.
  - apply UNNORMALIZED_STATE_normSq.
  - apply getProbability_UNNORMALIZED_STATE.
  - intros u Hu. apply measure_one.
    rewrite getProbability_UNNORMALIZED_STATE. lra.
  - apply getBlochCoordinates_UNNORMALIZED_STATE.
  - exact getBlochCoordinates_on_sphere.
Qed.

Lemma unnormalized_state_results_witness :
  measure UNNORMALIZED_STATE (1 / 2) = mkMeasurement STATE_ONE Outcome1.
Proof.
  assert (Hu : 1 / 2 < 1) by lra.
  exact (proj1 (proj2 (proj2 unnormalized_state_results)) (1 / 2) Hu).
Defined.

(** * Further properties of the engine *)

(** ** Complex arithmetic *)

Ltac complex_ring :=
  apply Complex_eq; simpl; ring.

(** [add] and [multiply] do not depend on the order of their arguments. *)
Theorem add_multiply_comm (a b : Complex) :
  add a b = add b a /\ multiply a b = multiply b a.
Proof. split; complex_ring. Qed.

(** [multiply] is associative and distributes over [add]; [ONE] is its
    unit, [ZERO] absorbs, and [ZERO] is the unit of [add]. *)
Theorem multiply_ring_laws (a b c : Complex) :
  multiply a (multiply b c) = multiply (multiply a b) c /\
  add a (add b c) = add (add a b) c /\
  multiply a (add b c) = add (multiply a b) (multiply a c) /\
  multiply ONE a = a /\
  multiply ZERO a = ZERO /\
  add ZERO a = a.
Proof. repeat split; complex_ring. Qed.

(** The magnitude of a product is the product of the magnitudes. *)
Theorem magnitude_multiply (a b : Complex) :
  magnitude (multiply a b) = magnitude a * magnitude b.
Proof.
  unfold magnitude at 2 3.
  rewrite <- sqrt_mult by apply sumsq_nonneg.
  unfold magnitude. f_equal. simpl. ring.
Qed.

(** Only the complex number [0 + 0i] has magnitude 0. *)
Theorem magnitude_zero_iff (c : Complex) : magnitude c = 0 <-> c = ZERO.
Proof.
  split.
  - intros Hm. pose proof (magnitude_sq c) as Hs. rewrite Hm in Hs.
    apply Complex_eq; simpl; nra.
  - intros ->. unfold magnitude, ZERO. simpl.
    replace (0 * 0 + 0 * 0) with 0 by ring. apply sqrt_0.
Qed.

(** Triangle inequality for [add]. *)
Theorem magnitude_add_le (a b : Complex) :
  magnitude (add a b) <= magnitude a + magnitude b.
Proof.
  pose proof (magnitude_nonneg a) as Ha. pose proof (magnitude_nonneg b) as Hb.
  pose proof (magnitude_nonneg (add a b)) as Hab.
  pose proof (magnitude_sq a) as Sa. pose proof (magnitude_sq b) as Sb.
  pose proof (magnitude_sq (add a b)) as Sab.
  destruct a as [ar ai], b as [br bi]. simpl in Sa, Sb, Sab.
  set (ma := magnitude (mkComplex ar ai)) in *.
  set (mb := magnitude (mkComplex br bi)) in *.
  set (mab := magnitude (add (mkComplex ar ai) (mkComplex br bi))) in *.
  assert (Hprod : (ma * mb) * (ma * mb)
                  = (ar * br + ai * bi) * (ar * br + ai * bi)
                    + (ar * bi - ai * br) * (ar * bi - ai * br)).
  { replace (ma * mb * (ma * mb)) with ((ma * ma) * (mb * mb)) by ring.
    rewrite Sa, Sb. ring. }
  assert (Hcs : ar * br + ai * bi <= ma * mb).
  { pose proof (Rle_0_sqr (ar * bi - ai * br)) as Hd. unfold Rsqr in Hd.
    assert (H0 : 0 <= ma * mb) by (apply Rmult_le_pos; assumption).
    destruct (Rle_dec (ar * br + ai * bi) 0) as [Hn | Hp]; [lra|].
    apply Rnot_le_lt in Hp.
    destruct (Rle_dec (ar * br + ai * bi) (ma * mb)) as [Hle | Hgt]; [exact Hle|].
    apply Rnot_le_lt in Hgt. exfalso.
    assert (Hlt : (ma * mb) * (ma * mb)
                  < (ar * br + ai * bi) * (ar * br + ai * bi)).
    { apply Rmult_le_0_lt_compat; assumption. }
    lra. }
  assert (Hsq : mab * mab <= (ma + mb) * (ma + mb)).
  { replace ((ma + mb) * (ma + mb)) with (ma * ma + mb * mb + 2 * (ma * mb))
      by ring.
    rewrite Sab, Sa, Sb.
    replace ((ar + br) * (ar + br) + (ai + bi) * (ai + bi))
      with (ar * ar + ai * ai + (br * br + bi * bi) + 2 * (ar * br + ai * bi))
      by ring.
    lra. }
  destruct (Rle_dec mab (ma + mb)) as [Hle | Hgt]; [exact Hle|].
  apply Rnot_le_lt in Hgt. exfalso.
  assert (Hlt : (ma + mb) * (ma + mb) < mab * mab).
  { apply Rmult_le_0_lt_compat; lra. }
  lra.
Qed.

(** [expImaginary] lands on the unit circle and turns sums of angles into
    products. *)
Theorem expImaginary_unit_hom (a b : R) :
  magnitude (expImaginary a) = 1 /\
  expImaginary (a + b) = multiply (expImaginary a) (expImaginary b).
Proof.
  split.
  - unfold magnitude, expImaginary. simpl. rewrite cos_sin_sq. apply sqrt_1.
  - unfold expImaginary, multiply. simpl. rewrite cos_plus, sin_plus.
    f_equal; ring.
Qed.

(** ** Gates *)

Lemma applyGate_normSq_aux (s : QuantumState) (g : GateType) :
  normSq (applyGate s g) = normSq s.
Proof.
  rewrite !normSq_eq. destruct s as [[ar ai] [br bi]].
  pose proof inv_sqrt2_sq as Hk. pose proof (cos_sin_sq (PI / 4)) as Hcs.
  destruct g; simpl; try ring.
  - rewrite neg_inv_sqrt2. set (k := 1 / sqrt 2) in *.
    transitivity (2 * (k * k) * (ar * ar + ai * ai + (br * br + bi * bi)));
      [ring | rewrite Hk; field].
  - set (c := cos (PI / 4)) in *. set (d := sin (PI / 4)) in *.
    transitivity (ar * ar + ai * ai + (c * c + d * d) * (br * br + bi * bi));
      [ring | rewrite Hcs; ring].
Qed.

(** Every gate keeps [|alpha|^2 + |beta|^2] as it is, whatever its value. *)
Theorem applyGate_normSq (s : QuantumState) (g : GateType) :
  normSq (applyGate s g) = normSq s.
Proof. apply applyGate_normSq_aux. Qed.

Lemma applyGate_normalized_aux (s : QuantumState) (g : GateType) :
  normalized s -> normalized (applyGate s g).
Proof. unfold normalized. rewrite applyGate_normSq_aux. exact (fun e => e). Qed.

Lemma applyGate_H_eq (s : QuantumState) :
  applyGate s H =
    mkState (mkComplex (1 / sqrt 2 * (r (alpha s) + r (beta s)))
                       (1 / sqrt 2 * (i (alpha s) + i (beta s))))
            (mkComplex (1 / sqrt 2 * (r (alpha s) - r (beta s)))
                       (1 / sqrt 2 * (i (alpha s) - i (beta s)))).
Proof.
  destruct s as [[ar ai] [br bi]]. unfold applyGate. simpl GATES.
  unfold m00, m01, m10, m11, INV_SQRT_2, createComplex. simpl fst. simpl snd.
  rewrite neg_inv_sqrt2. f_equal; complex_ring.
Qed.

Ltac by_half_square k Hk e :=
  transitivity ((k * k) * e); [ring | rewrite Hk; field].

Lemma applyGate_involutive_aux (s : QuantumState) (g : GateType) :
  g = H \/ g = X \/ g = Y \/ g = Z -> applyGate (applyGate s g) g = s.
Proof.
  intros [-> | [-> | [-> | ->]]].
  - rewrite (applyGate_H_eq (applyGate s H)), (applyGate_H_eq s).
    destruct s as [[ar ai] [br bi]]. cbn [alpha beta r i].
    pose proof inv_sqrt2_sq as Hk. set (k := 1 / sqrt 2) in *.
    f_equal; apply Complex_eq; cbn [r i].
    + by_half_square k Hk (2 * ar).
    + by_half_square k Hk (2 * ai).
    + by_half_square k Hk (2 * br).
    + by_half_square k Hk (2 * bi).
  - destruct s as [[ar ai] [br bi]].
    unfold applyGate; simpl; f_equal; complex_ring.
  - destruct s as [[ar ai] [br bi]].
    unfold applyGate; simpl; f_equal; complex_ring.
  - destruct s as [[ar ai] [br bi]].
    unfold applyGate; simpl; f_equal; complex_ring.
Qed.

(** Hadamard and Pauli-Y are their own inverses, like Pauli-X and
    Pauli-Z. *)
Theorem applyGate_H_Y_involutive (s : QuantumState) :
  applyGate (applyGate s H) H = s /\ applyGate (applyGate s Y) Y = s.
Proof. split; apply applyGate_involutive_aux; tauto. Qed.

Lemma applyGate_X_eq (s : QuantumState) :
  applyGate s X = mkState (beta s) (alpha s).
Proof.
  destruct s as [[ar ai] [br bi]]. unfold applyGate. simpl.
  f_equal; complex_ring.
Qed.

Lemma applyGate_Z_eq (s : QuantumState) :
  applyGate s Z =
    mkState (alpha s) (mkComplex (- r (beta s)) (- i (beta s))).
Proof.
  destruct s as [[ar ai] [br bi]]. unfold applyGate. simpl.
  f_equal; complex_ring.
Qed.

Lemma applyGate_S_eq (s : QuantumState) :
  applyGate s S =
    mkState (alpha s) (mkComplex (- i (beta s)) (r (beta s))).
Proof.
  destruct s as [[ar ai] [br bi]]. unfold applyGate. simpl.
  f_equal; complex_ring.
Qed.

Lemma applyGate_T_eq (s : QuantumState) :
  applyGate s T =
    mkState (alpha s)
            (mkComplex (1 / sqrt 2 * (r (beta s) - i (beta s)))
                       (1 / sqrt 2 * (r (beta s) + i (beta s)))).
Proof.
  destruct s as [[ar ai] [br bi]]. unfold applyGate. simpl GATES.
  unfold m00, m01, m10, m11, expImaginary, ONE, ZERO, createComplex.
  simpl fst. simpl snd. rewrite cos_PI4, sin_PI4.
  f_equal; complex_ring.
Qed.

(** The phase gates compose as rotations do: S twice is Z, T twice is S
    (so T four times is Z). *)
Theorem applyGate_phase_powers (s : QuantumState) :
  applyGate (applyGate s S) S = applyGate s Z /\
  applyGate (applyGate s T) T = applyGate s S.
Proof.
  split.
  - rewrite (applyGate_S_eq (applyGate s S)), (applyGate_S_eq s), applyGate_Z_eq.
    reflexivity.
  - rewrite (applyGate_T_eq (applyGate s T)), (applyGate_T_eq s), applyGate_S_eq.
    destruct s as [[ar ai] [br bi]]. cbn [alpha beta r i].
    pose proof inv_sqrt2_sq as Hk. set (k := 1 / sqrt 2) in *.
    f_equal; apply Complex_eq; cbn [r i].
    + by_half_square k Hk (- (2 * bi)).
    + by_half_square k Hk (2 * br).
Qed.

(** Hadamard exchanges the bit flip and the phase flip: H, Z, H in a row
    is X, and H, X, H in a row is Z. *)
Theorem applyGate_H_conjugation (s : QuantumState) :
  applyGate (applyGate (applyGate s H) Z) H = applyGate s X /\
  applyGate (applyGate (applyGate s H) X) H = applyGate s Z.
Proof.
  pose proof inv_sqrt2_sq as Hk.
  split.
  - rewrite (applyGate_H_eq (applyGate (applyGate s H) Z)).
    rewrite (applyGate_Z_eq (applyGate s H)), (applyGate_H_eq s), applyGate_X_eq.
    destruct s as [[ar ai] [br bi]]. cbn [alpha beta r i].
    set (k := 1 / sqrt 2) in *.
    f_equal; apply Complex_eq; cbn [r i].
    + by_half_square k Hk (2 * br).
    + by_half_square k Hk (2 * bi).
    + by_half_square k Hk (2 * ar).
    + by_half_square k Hk (2 * ai).
  - rewrite (applyGate_H_eq (applyGate (applyGate s H) X)).
    rewrite (applyGate_X_eq (applyGate s H)), (applyGate_H_eq s), applyGate_Z_eq.
    destruct s as [[ar ai] [br bi]]. cbn [alpha beta r i].
    set (k := 1 / sqrt 2) in *.
    f_equal; apply Complex_eq; cbn [r i].
    + by_half_square k Hk (2 * ar).
    + by_half_square k Hk (2 * ai).
    + by_half_square k Hk (- (2 * br)).
    + by_half_square k Hk (- (2 * bi)).
Qed.



(** On a normalized state Hadamard gives probability
    [1/2 - Re (conj alpha * beta)]; in particular both canonical states go
    to probability [1/2]. *)
Theorem applyGate_H_probability (s : QuantumState) :
  normalized s ->
  getProbability (applyGate s H)
  = 1 / 2 - (r (alpha s) * r (beta s) + i (alpha s) * i (beta s)).
Proof.
  unfold normalized. rewrite normSq_eq. intros Hn.
  rewrite applyGate_H_eq, getProbability_eq. cbn [beta r i].
  destruct s as [[ar ai] [br bi]]. cbn [alpha beta r i] in *.
  pose proof inv_sqrt2_sq as Hk. set (k := 1 / sqrt 2) in *.
  transitivity ((k * k) * ((ar * ar + ai * ai + (br * br + bi * bi))
                           - 2 * (ar * br + ai * bi))); [ring|].
  rewrite Hk, Hn. field.
Qed.

Lemma applyGate_H_probability_witness :
  normalized STATE_ONE /\ getProbability (applyGate STATE_ONE H) = 1 / 2.
Proof.
  split.
  - exact normalized_STATE_ONE.
  - rewrite (applyGate_H_probability STATE_ONE normalized_STATE_ONE).
    simpl. field.
Defined.

(** ** [Math.atan2] as the angle of a point *)

Lemma sqrt_one_plus_ratio (x y p : R) :
  0 < p -> p * p = x * x ->
  sqrt (1 + (y / x)²) = sqrt (x * x + y * y) / p.
Proof.
  intros Hp Hpx.
  assert (Hx : x <> 0) by (intros ->; nra).
  pose proof (sqrt_pos (x * x + y * y)) as Hs.
  pose proof (sqrt_sqrt (x * x + y * y) (sumsq_nonneg x y)) as Hss.
  apply sqrt_lem_1.
  - unfold Rsqr. pose proof (Rle_0_sqr (y / x)) as Hq. unfold Rsqr in Hq. lra.
  - apply Rmult_le_pos; [exact Hs|]. left. apply Rinv_0_lt_compat. exact Hp.
  - unfold Rsqr.
    transitivity (sqrt (x * x + y * y) * sqrt (x * x + y * y) / (p * p));
      [field; lra|].
    rewrite Hss, Hpx. field. exact Hx.
Qed.

Lemma polar_atan (x y p : R) :
  0 < p -> p * p = x * x ->
  sqrt (x * x + y * y) * cos (atan (y / x)) = p /\
  sqrt (x * x + y * y) * sin (atan (y / x)) = p * (y / x).
Proof.
  intros Hp Hpx.
  assert (Hx : x <> 0) by (intros ->; nra).
  assert (Hpos : 0 < sqrt (x * x + y * y)).
  { apply sqrt_lt_R0. nra. }
  rewrite cos_atan, sin_atan, (sqrt_one_plus_ratio x y p Hp Hpx).
  split; field; lra.
Qed.

(** The polar decomposition behind [atan2]: the point [(x, y)] is its
    distance to the origin times [(cos, sin)] of [atan2 y x]. *)
Lemma polar_atan2 (x y : R) :
  sqrt (x * x + y * y) * cos (atan2 y x) = x /\
  sqrt (x * x + y * y) * sin (atan2 y x) = y.
Proof.
  unfold atan2.
  destruct (Rlt_dec 0 x) as [Hx | Hx].
  - destruct (polar_atan x y x Hx eq_refl) as [Hc Hs].
    split; [exact Hc|]. rewrite Hs. field. lra.
  - destruct (Rlt_dec x 0) as [Hx' | Hx'].
    + assert (Hp : 0 < - x) by lra.
      assert (Hpx : - x * - x = x * x) by ring.
      destruct (polar_atan x y (- x) Hp Hpx) as [Hc Hs].
      destruct (Rle_dec 0 y).
      * rewrite neg_cos, neg_sin. split.
        -- rewrite Ropp_mult_distr_r_reverse, Hc. ring.
        -- rewrite Ropp_mult_distr_r_reverse, Hs. field. lra.
      * rewrite cos_minus, sin_minus, cos_PI, sin_PI. split.
        -- transitivity (- (sqrt (x * x + y * y) * cos (atan (y / x)))); [ring|].
           rewrite Hc. ring.
        -- transitivity (- (sqrt (x * x + y * y) * sin (atan (y / x)))); [ring|].
           rewrite Hs. field. lra.
    + assert (Hx0 : x = 0) by lra. subst x.
      replace (0 * 0 + y * y) with (y * y) by ring.
      destruct (Rlt_dec 0 y) as [Hy | Hy].
      * rewrite cos_PI2, sin_PI2, sqrt_square by lra. split; ring.
      * destruct (Rlt_dec y 0) as [Hy' | Hy'].
        -- rewrite cos_neg, sin_neg, cos_PI2, sin_PI2.
           replace (y * y) with (- y * - y) by ring.
           rewrite sqrt_square by lra. split; ring.
        -- assert (Hy0 : y = 0) by lra. subst y.
           rewrite Rmult_0_l, sqrt_0. split; ring.
Qed.

Lemma polar_phase (c : Complex) :
  magnitude c * cos (atan2 (i c) (r c)) = r c /\
  magnitude c * sin (atan2 (i c) (r c)) = i c.
Proof. unfold magnitude. apply polar_atan2. Qed.

(** ** The Bloch vector *)

Lemma normalized_magnitudes (s : QuantumState) :
  normalized s ->
  0 <= magnitude (beta s) <= 1 /\
  sqrt (1 - (magnitude (beta s))²) = magnitude (alpha s).
Proof.
  unfold normalized, normSq. intros Hn.
  pose proof (magnitude_nonneg (alpha s)) as Ha.
  pose proof (magnitude_nonneg (beta s)) as Hb.
  split; [split; nra|].
  apply sqrt_lem_1; unfold Rsqr; nra.
Qed.

Lemma getBlochCoordinates_vector_aux (s : QuantumState) :
  normalized s ->
  getBlochCoordinates s =
    mkCoords
      (2 * (r (alpha s) * r (beta s) + i (alpha s) * i (beta s)))
      (2 * (r (alpha s) * i (beta s) - i (alpha s) * r (beta s)))
      (r (alpha s) * r (alpha s) + i (alpha s) * i (alpha s)
       - (r (beta s) * r (beta s) + i (beta s) * i (beta s))).
Proof.
  intros Hn.
  destruct (normalized_magnitudes s Hn) as [Hb Hsqrt].
  destruct (polar_phase (alpha s)) as [Hac Has].
  destruct (polar_phase (beta s)) as [Hbc Hbs].
  pose proof (magnitude_sq (beta s)) as Sb.
  unfold normalized in Hn. rewrite normSq_eq in Hn.
  unfold getBlochCoordinates. cbv zeta.
  rewrite clamp_id by exact Hb.
  rewrite sin_2a, cos_2a_sin, sin_asin, cos_asin, Hsqrt by lra.
  rewrite cos_minus, sin_minus.
  set (ma := magnitude (alpha s)) in *. set (mb := magnitude (beta s)) in *.
  set (pa := atan2 (i (alpha s)) (r (alpha s))) in *.
  set (pb := atan2 (i (beta s)) (r (beta s))) in *.
  f_equal.
  - transitivity (2 * ((ma * cos pa) * (mb * cos pb)
                       + (ma * sin pa) * (mb * sin pb))); [ring|].
    rewrite Hac, Has, Hbc, Hbs. reflexivity.
  - transitivity (2 * ((ma * cos pa) * (mb * sin pb)
                       - (ma * sin pa) * (mb * cos pb))); [ring|].
    rewrite Hac, Has, Hbc, Hbs. reflexivity.
  - transitivity (1 - 2 * (mb * mb)); [ring|]. rewrite Sb. lra.
Qed.

(** On a normalized state [getBlochCoordinates] is the Bloch vector of the
    state: [x = 2 Re (conj alpha * beta)], [y = 2 Im (conj alpha * beta)],
    [z = |alpha|^2 - |beta|^2]. *)
Theorem getBlochCoordinates_vector (s : QuantumState) :
  normalized s ->
  getBlochCoordinates s =
    mkCoords
      (2 * (r (alpha s) * r (beta s) + i (alpha s) * i (beta s)))
      (2 * (r (alpha s) * i (beta s) - i (alpha s) * r (beta s)))
      (r (alpha s) * r (alpha s) + i (alpha s) * i (alpha s)
       - (r (beta s) * r (beta s) + i (beta s) * i (beta s))).
Proof. apply getBlochCoordinates_vector_aux. Qed.

Lemma getBlochCoordinates_vector_witness :
  normalized STATE_ONE /\
  getBlochCoordinates STATE_ONE = mkCoords (2 * (0 * 1 + 0 * 0)) (2 * (0 * 0 - 0 * 1))
                                           (0 * 0 + 0 * 0 - (1 * 1 + 0 * 0)).
Proof.
  split.
  - exact normalized_STATE_ONE.
  - exact (getBlochCoordinates_vector STATE_ONE normalized_STATE_ONE).
Defined.

Lemma applyGate_Y_eq (s : QuantumState) :
  applyGate s Y =
    mkState (mkComplex (i (beta s)) (- r (beta s)))
            (mkComplex (- i (alpha s)) (r (alpha s))).
Proof.
  destruct s as [[ar ai] [br bi]]. unfold applyGate. simpl.
  f_equal; complex_ring.
Qed.

Ltac bloch_of_gate s g Hn :=
  rewrite (getBlochCoordinates_vector_aux (applyGate s g)
             (applyGate_normalized_aux s g Hn)),
          (getBlochCoordinates_vector_aux s Hn).

(** On normalized states the gates move the Bloch point as rotations of
    the sphere: X, Y, Z are half turns about the x, y, z axes, H is the
    half turn exchanging the x and z axes, S is a quarter turn and T an
    eighth of a turn about the z axis. *)
Theorem applyGate_bloch_rotation (s : QuantumState) :
  normalized s ->
  getBlochCoordinates (applyGate s X) =
    mkCoords (cx (getBlochCoordinates s)) (- cy (getBlochCoordinates s))
             (- cz (getBlochCoordinates s)) /\
  getBlochCoordinates (applyGate s Y) =
    mkCoords (- cx (getBlochCoordinates s)) (cy (getBlochCoordinates s))
             (- cz (getBlochCoordinates s)) /\
  getBlochCoordinates (applyGate s Z) =
    mkCoords (- cx (getBlochCoordinates s)) (- cy (getBlochCoordinates s))
             (cz (getBlochCoordinates s)) /\
  getBlochCoordinates (applyGate s H) =
    mkCoords (cz (getBlochCoordinates s)) (- cy (getBlochCoordinates s))
             (cx (getBlochCoordinates s)) /\
  getBlochCoordinates (applyGate s S) =
    mkCoords (- cy (getBlochCoordinates s)) (cx (getBlochCoordinates s))
             (cz (getBlochCoordinates s)) /\
  getBlochCoordinates (applyGate s T) =
    mkCoords ((cx (getBlochCoordinates s) - cy (getBlochCoordinates s)) / sqrt 2)
             ((cx (getBlochCoordinates s) + cy (getBlochCoordinates s)) / sqrt 2)
             (cz (getBlochCoordinates s)).
Proof.
  intros Hn. pose proof inv_sqrt2_sq as Hk. pose proof sqrt2_pos as Hp.
  repeat split.
  - bloch_of_gate s X Hn. rewrite applyGate_X_eq.
    cbn [alpha beta r i cx cy cz]. f_equal; ring.
  - bloch_of_gate s Y Hn. rewrite applyGate_Y_eq.
    cbn [alpha beta r i cx cy cz]. f_equal; ring.
  - bloch_of_gate s Z Hn. rewrite applyGate_Z_eq.
    cbn [alpha beta r i cx cy cz]. f_equal; ring.
  - bloch_of_gate s H Hn. rewrite applyGate_H_eq.
    destruct s as [[ar ai] [br bi]]. cbn [alpha beta r i cx cy cz].
    set (k := 1 / sqrt 2) in *. f_equal.
    + by_half_square k Hk
        (2 * (ar * ar + ai * ai - (br * br + bi * bi))).
    + by_half_square k Hk (- (2 * (2 * (ar * bi - ai * br)))).
    + by_half_square k Hk (2 * (2 * (ar * br + ai * bi))).
  - bloch_of_gate s S Hn. rewrite applyGate_S_eq.
    cbn [alpha beta r i cx cy cz]. f_equal; ring.
  - bloch_of_gate s T Hn. rewrite applyGate_T_eq.
    destruct s as [[ar ai] [br bi]]. cbn [alpha beta r i cx cy cz].
    f_equal.
    + field. lra.
    + field. lra.
    + set (k := 1 / sqrt 2) in *.
      transitivity (ar * ar + ai * ai - (k * k) * (2 * (br * br + bi * bi)));
        [ring | rewrite Hk; field].
Qed.

Lemma applyGate_bloch_rotation_witness :
  normalized STATE_ZERO /\
  getBlochCoordinates (applyGate STATE_ZERO X) =
    mkCoords (cx (getBlochCoordinates STATE_ZERO))
             (- cy (getBlochCoordinates STATE_ZERO))
             (- cz (getBlochCoordinates STATE_ZERO)).
Proof.
  split.
  - exact normalized_STATE_ZERO.
  - exact (proj1 (applyGate_bloch_rotation STATE_ZERO normalized_STATE_ZERO)).
Defined.

(** The clamp of [getBlochCoordinates] saturates: every state whose
    [beta] has magnitude 1 or more is drawn at the south pole. *)
Theorem getBlochCoordinates_saturates (s : QuantumState) :
  1 <= magnitude (beta s) ->
  getBlochCoordinates s = mkCoords 0 0 (-1).
Proof.
  intros Hm. unfold getBlochCoordinates. cbv zeta.
  rewrite clamp_above by exact Hm.
  rewrite asin_1. replace (2 * (PI / 2)) with PI by field.
  rewrite sin_PI, cos_PI. f_equal; ring.
Qed.

Lemma getBlochCoordinates_saturates_witness :
  getBlochCoordinates UNNORMALIZED_STATE = mkCoords 0 0 (-1).
Proof.
  apply (getBlochCoordinates_saturates UNNORMALIZED_STATE).
  unfold UNNORMALIZED_STATE, createComplex. cbn [beta].
  rewrite magnitude_real by lra. lra.
Defined.

(** A state with [beta = 0] is drawn at the north pole whatever [alpha]
    is, normalized or not. *)
Theorem getBlochCoordinates_beta_zero (s : QuantumState) :
  beta s = ZERO ->
  getBlochCoordinates s = mkCoords 0 0 1.
Proof.
  intros Hb. unfold getBlochCoordinates. cbv zeta. rewrite Hb.
  unfold ZERO, createComplex. rewrite magnitude_real by lra.
  rewrite clamp_id by lra.
  rewrite asin_0, Rmult_0_r, sin_0, cos_0. f_equal; ring.
Qed.

Lemma getBlochCoordinates_beta_zero_witness :
  getBlochCoordinates (mkState (mkComplex 3 4) ZERO) = mkCoords 0 0 1.
Proof.
  apply (getBlochCoordinates_beta_zero (mkState (mkComplex 3 4) ZERO)).
  reflexivity.
Defined.

(** ** Measurement *)

(** Measuring is repeatable: the collapsed state is normalized, and
    measuring it again, with any draw in [[0, 1)], returns the same outcome
    and the same state. *)
Theorem measure_repeatable (s : QuantumState) (u u' : R) :
  0 <= u' < 1 ->
  normalized (collapsedState (measure s u)) /\
  measure (collapsedState (measure s u)) u' = measure s u.
Proof.
  intros [Hu0 Hu1]. unfold measure at 1 3 4.
  destruct (Rlt_dec u (getProbability s)); cbn [collapsedState].
  - split; [exact normalized_STATE_ONE|].
    apply measure_one. rewrite getProbability_STATE_ONE. exact Hu1.
  - split; [exact normalized_STATE_ZERO|].
    apply measure_zero. rewrite getProbability_STATE_ZERO. lra.
Qed.

Lemma measure_repeatable_witness :
  measure (collapsedState (measure PLUS_STATE (1 / 4))) (3 / 4)
  = measure PLUS_STATE (1 / 4).
Proof.
  assert (Hu : 0 <= 3 / 4 < 1) by lra.
  exact (proj2 (measure_repeatable PLUS_STATE (1 / 4) (3 / 4) Hu)).
Defined.

(** * Circuit breaker *)

Section CircuitBreakerFacts.

Import CircuitBreaker.
Local Open Scope Z_scope.

Lemma circuitBreaker_step_invariant (st : CircuitBreakerState) (c : Call) :
  invariant st -> invariant (step st c).
Proof.
  unfold invariant, failureThreshold, halfOpenSuccessThreshold.
  destruct st as [[ | | ] f t sc]; cbn [state failures successCount];
    intros [Hf Hs]; destruct c as [now | | now | ];
    cbn [step canMakeRequest recordSuccess recordFailure reset initial
         state failures lastFailureTime successCount snd];
    unfold failureThreshold, halfOpenSuccessThreshold, timeout;
    repeat match goal with
           | |- context [if ?b then _ else _] => destruct b eqn:?
           end;
    cbn [state failures successCount snd]; lia.
Qed.

Lemma circuitBreaker_run_invariant (calls : list Call) :
  forall st, invariant st -> invariant (run calls st).
Proof.
  induction calls as [ | c calls IH]; intros st Hst; [exact Hst|].
  apply IH, circuitBreaker_step_invariant, Hst.
Qed.

(** After any calls made on a fresh breaker, in any order and at any
    times: a closed breaker has fewer than 5 failures counted and a
    success count of 0, an open one has a success count of 0, and a
    half-open one has a success count of 0 or 1. *)
Theorem circuitBreaker_invariant (calls : list Call) :
  invariant (run calls initial).
Proof.
  apply circuitBreaker_run_invariant.
  unfold invariant, initial, failureThreshold. cbn. lia.
Qed.

Lemma circuitBreaker_failures_open (times : list int) :
  forall st, state st = open ->
    state (run (map RecordFailure times) st) = open.
Proof.
  induction times as [ | t times IH]; intros st Hst; [exact Hst|].
  cbn [map run fold_left]. apply IH.
  cbn [step]. unfold recordFailure. rewrite Hst. reflexivity.
Qed.

Lemma circuitBreaker_failures_closed (times : list int) :
  forall st, state st = closed -> failures st < failureThreshold ->
    state (run (map RecordFailure times) st)
    = if failures st + Z.of_nat (List.length times) <? failureThreshold
      then closed else open.
Proof.
  unfold failureThreshold.
  induction times as [ | t times IH]; intros st Hst Hf.
  - cbn [map run fold_left List.length]. rewrite Hst.
    destruct (Z.ltb_spec (failures st + Z.of_nat 0) 5); [reflexivity | lia].
  - cbn [map run fold_left step]. fold (run (map RecordFailure times)).
    unfold recordFailure, failureThreshold. rewrite Hst.
    destruct (Z.leb_spec 5 (failures st + 1)) as [Hge | Hlt].
    + rewrite circuitBreaker_failures_open by reflexivity.
      destruct (Z.ltb_spec (failures st + Z.of_nat (List.length (t :: times))) 5);
        [cbn [List.length] in *; lia | reflexivity].
    + rewrite IH by (cbn [state failures]; (reflexivity || lia)).
      cbn [failures List.length].
      replace (failures st + 1 + Z.of_nat (List.length times))
        with (failures st + Z.of_nat (Datatypes.S (List.length times))) by lia.
      reflexivity.
Qed.

(** Counted from a fresh breaker, failures open it exactly when the
    fifth one in a row is recorded, whatever the times they carry. *)
Theorem circuitBreaker_trips_at_threshold (times : list int) :
  state (run (map RecordFailure times) initial)
  = if Z.of_nat (List.length times) <? 5 then closed else open.
Proof.
  rewrite circuitBreaker_failures_closed;
    [reflexivity | reflexivity | unfold failureThreshold; cbn; lia].
Qed.

(** A success recorded on a closed breaker clears the failure count:
    up to four failures after it leave the breaker closed, however many
    failures came before. *)
Theorem circuitBreaker_success_resets
        (st : CircuitBreakerState) (times : list int) :
  state st = closed ->
  (List.length times < 5)%nat ->
  state (run (RecordSuccess :: map RecordFailure times) st) = closed.
Proof.
  intros Hst Hlen. cbn [run fold_left step].
  fold (run (map RecordFailure times)).
  unfold recordSuccess. rewrite Hst.
  rewrite circuitBreaker_failures_closed;
    [ | reflexivity | unfold failureThreshold; cbn; lia].
  cbn [failures]. unfold failureThreshold.
  destruct (Z.ltb_spec (0 + Z.of_nat (List.length times)) 5);
    [reflexivity | lia].
Qed.

Lemma circuitBreaker_success_resets_witness :
  state (run (RecordSuccess :: map RecordFailure (10 :: 20 :: 30 :: 40 :: nil))
             (run (map RecordFailure (1 :: 2 :: 3 :: 4 :: nil)) initial))
  = closed.
Proof.
  apply (circuitBreaker_success_resets
           (run (map RecordFailure (1 :: 2 :: 3 :: 4 :: nil)) initial)
           (10 :: 20 :: 30 :: 40 :: nil)).
  - reflexivity.
  - cbn. lia.
Defined.

(** An open breaker refuses every request made up to 60000 ms after the
    last failure and leaves its state alone.  The first request after
    that is let through and makes it half-open; from there two successes
    close it with both counters at 0, whereas a failure, also after one
    success, opens it again with the timeout restarted. *)
Theorem circuitBreaker_recovery (st : CircuitBreakerState) (now : int) :
  state st = open ->
  (now - lastFailureTime st <= 60000 -> canMakeRequest now st = (false, st)) /\
  (60000 < now - lastFailureTime st ->
     fst (canMakeRequest now st) = true /\
     state (snd (canMakeRequest now st)) = half_open /\
     state (recordSuccess (snd (canMakeRequest now st))) = half_open /\
     recordSuccess (recordSuccess (snd (canMakeRequest now st)))
       = CircuitBreaker.mkState closed 0 (lastFailureTime st) 0 /\
     (forall t : int,
        recordFailure t (snd (canMakeRequest now st))
          = CircuitBreaker.mkState open (failures st + 1) t 0 /\
        recordFailure t (recordSuccess (snd (canMakeRequest now st)))
          = CircuitBreaker.mkState open (failures st + 1) t 0)).
Proof.
  intros Hst. unfold canMakeRequest, timeout. rewrite Hst. split.
  - intros Hle. destruct (Z.ltb_spec 60000 (now - lastFailureTime st));
      [lia | reflexivity].
  - intros Hgt. destruct (Z.ltb_spec 60000 (now - lastFailureTime st));
      [ | lia].
    cbn [fst snd state]. repeat split.
Qed.

Lemma circuitBreaker_recovery_witness :
  canMakeRequest 60005
    (run (map RecordFailure (1 :: 2 :: 3 :: 4 :: 5 :: nil)) initial)
  = (false, run (map RecordFailure (1 :: 2 :: 3 :: 4 :: 5 :: nil)) initial).
Proof.
  apply (proj1 (circuitBreaker_recovery
                  (run (map RecordFailure (1 :: 2 :: 3 :: 4 :: 5 :: nil)) initial)
                  60005 eq_refl)).
  cbn. lia.
Defined.

End CircuitBreakerFacts.

(** * Analytics *)

Section AnalyticsFacts.

Import Analytics.
Variable Properties : Type.
Implicit Type a : Analytics Properties.

Lemma analytics_track_length (now : int) (ev : string)
      (props : option Properties) a :
  (List.length (events a) <= maxEvents)%nat ->
  (List.length (events (track now ev props a)) <= maxEvents)%nat.
Proof.
  intros Hlen. unfold track.
  destruct (enabled a); cbn [negb]; [ | exact Hlen].
  cbn [events].
  destruct (Nat.ltb_spec maxEvents
              (List.length (events a ++ mkEvent ev now props :: nil)))
    as [Hgt | Hle]; [ | exact Hle].
  rewrite length_app in Hgt. cbn [List.length] in Hgt.
  destruct (events a) as [ | e0 rest]; cbn [app tl List.length] in *.
  - unfold maxEvents. lia.
  - rewrite length_app. cbn [List.length]. lia.
Qed.

(** Whatever is tracked, cleared, disabled or enabled on a new
    [Analytics] object, it never holds more than 100 events. *)
Theorem analytics_buffer_bounded (calls : list (Call Properties)) :
  (List.length (events (run calls new)) <= 100)%nat.
Proof.
  change 100%nat with maxEvents.
  assert (Hgen : forall a,
             (List.length (events a) <= maxEvents)%nat ->
             (List.length (events (run calls a)) <= maxEvents)%nat).
  { induction calls as [ | c calls IH]; intros a Ha; [exact Ha|].
    cbn [run fold_left]. apply IH.
    destruct c; cbn [step clearEvents disable enable events].
    - apply analytics_track_length, Ha.
    - unfold maxEvents. cbn. lia.
    - exact Ha.
    - exact Ha. }
  apply Hgen. unfold maxEvents. cbn. lia.
Qed.

(** While enabled, [track] keeps a sliding window: the buffer becomes
    the last 100 entries of the old buffer followed by the new event, so
    a full buffer loses exactly its oldest event.  While disabled,
    [track] changes nothing. *)
Theorem analytics_track_window (now : int) (ev : string)
        (props : option Properties) a :
  (List.length (events a) <= 100)%nat ->
  (enabled a = true ->
     events (track now ev props a)
     = skipn (List.length (events a) + 1 - 100)
             (events a ++ mkEvent ev now props :: nil)) /\
  (enabled a = false -> track now ev props a = a).
Proof.
  intros Hlen. unfold track. split; intros He; rewrite He; cbn [negb];
    [ | reflexivity].
  cbn [events]. unfold maxEvents. rewrite length_app. cbn [List.length].
  destruct (Nat.ltb_spec 100 (List.length (events a) + 1)) as [Hgt | Hle].
  - replace (List.length (events a) + 1 - 100)%nat with 1%nat by lia.
    destruct (events a); reflexivity.
  - replace (List.length (events a) + 1 - 100)%nat with 0%nat by lia.
    reflexivity.
Qed.

(** [getRecentEvents count] returns the last [count] events (all of them
    when fewer are held) for a positive [count]; but for [count = 0] it
    returns every event held, not none, and for a negative [count] it
    drops the first [- count] events. *)
Theorem analytics_getRecentEvents (count : int) a :
  ((0 < count)%Z ->
     getRecentEvents (Some count) a
     = skipn (List.length (events a) - Z.to_nat count) (events a) /\
     List.length (getRecentEvents (Some count) a)
     = Nat.min (Z.to_nat count) (List.length (events a))) /\
  getRecentEvents (Some 0%Z) a = events a /\
  ((count < 0)%Z ->
     getRecentEvents (Some count) a = skipn (Z.to_nat (- count)) (events a)).
Proof.
  unfold getRecentEvents, slice.
  split; [intros Hc; split | split; [ | intros Hc]].
  - destruct (Z.ltb_spec (- count) 0); [ | lia].
    f_equal. lia.
  - destruct (Z.ltb_spec (- count) 0); [ | lia].
    rewrite length_skipn. lia.
  - cbn [Z.opp Z.ltb Z.compare]. rewrite Z.min_l by lia. reflexivity.
  - destruct (Z.ltb_spec (- count) 0); [lia | ].
    destruct (Z.le_ge_cases (- count) (Z.of_nat (List.length (events a))))
      as [Hle | Hge].
    + rewrite Z.min_l by exact Hle. reflexivity.
    + rewrite Z.min_r by exact Hge.
      rewrite !skipn_all2 by lia. reflexivity.
Qed.

End AnalyticsFacts.

Lemma analytics_track_window_witness :
  Analytics.events
    (Analytics.track 7%Z "gate_applied" (Some "H"%string) Analytics.new)
  = skipn (0 + 1 - 100)
          (nil ++ Analytics.mkEvent "gate_applied" 7%Z (Some "H"%string) :: nil).
Proof.
  assert (Hlen : (List.length (Analytics.events (@Analytics.new string)) <= 100)%nat)
    by (cbn; lia).
  exact (proj1 (analytics_track_window string 7%Z "gate_applied"
                  (Some "H"%string) Analytics.new Hlen) eq_refl).
Defined.

Lemma analytics_getRecentEvents_witness :
  Analytics.getRecentEvents (Some 1%Z)
    (Analytics.track 7%Z "gate_applied" (Some "H"%string) Analytics.new)
  = skipn (1 - Z.to_nat 1)
          (Analytics.events
             (Analytics.track 7%Z "gate_applied" (Some "H"%string) Analytics.new)).
Proof.
  assert (Hc : (0 < 1)%Z) by lia.
  exact (proj1 (proj1 (analytics_getRecentEvents string 1%Z
                         (Analytics.track 7%Z "gate_applied" (Some "H"%string)
                                          Analytics.new)) Hc)).
Defined.

(** * Rate limiter *)

Section RateLimiterFacts.

Import RateLimiter.
Local Open Scope Z_scope.

Lemma ceilSeconds_bounds (x : int) :
  0 < x <= 2000 -> 1 <= ceilSeconds x <= 2.
Proof.
  intros Hx. unfold ceilSeconds.
  assert (-2 <= - x / 1000 <= -1).
  { split.
    - apply Z.div_le_lower_bound; lia.
    - assert (- x / 1000 < 0) by (apply Z.div_lt_upper_bound; lia). lia. }
  lia.
Qed.

(** For 2000 ms after a recorded call every check is refused, the
    limiter is left as it is, and the message asks to wait 1 or 2
    seconds. *)
Theorem rateLimiter_min_spacing (st : RateLimiter) (t now : int) :
  0 <= now - t < 2000 ->
  exists remaining : int,
    1 <= remaining <= 2 /\
    checkRateLimit now (recordCall t st)
    = (mkResult false (Some (waitMessage remaining)), recordCall t st).
Proof.
  intros Hd. exists (ceilSeconds (2000 - (now - t))). split.
  - apply ceilSeconds_bounds. lia.
  - unfold checkRateLimit, MIN_TIME_BETWEEN_CALLS. cbn [recordCall lastCallTime].
    destruct (Z.ltb_spec (now - t) 2000); [reflexivity | lia].
Qed.

Lemma rateLimiter_min_spacing_witness :
  exists remaining : int,
    1 <= remaining <= 2 /\
    checkRateLimit 1001000 (recordCall 1000000 (new 1000000))
    = (mkResult false (Some (waitMessage remaining)),
       recordCall 1000000 (new 1000000)).
Proof.
  apply (rateLimiter_min_spacing (new 1000000) 1000000 1001000). lia.
Defined.

(** Once the minimum spacing has passed, a check made more than 60000 ms
    after the start of the window is allowed whatever the call count
    was, and it restarts the window at the time of the check with a
    count of 0. *)
Theorem rateLimiter_window_reset (st : RateLimiter) (now : int) :
  2000 <= now - lastCallTime st ->
  60000 < now - windowStart st ->
  checkRateLimit now st
  = (mkResult true None, mkRateLimiter (lastCallTime st) 0 now).
Proof.
  intros Hmin Hwin.
  unfold checkRateLimit, MIN_TIME_BETWEEN_CALLS, RATE_LIMIT_WINDOW,
    MAX_CALLS_PER_MINUTE.
  destruct (Z.ltb_spec (now - lastCallTime st) 2000); [lia|].
  destruct (Z.ltb_spec 60000 (now - windowStart st)); [ | lia].
  reflexivity.
Qed.

Lemma rateLimiter_window_reset_witness :
  checkRateLimit 1093001 (mkRateLimiter 1027000 10 1000000)
  = (mkResult true None, mkRateLimiter 1027000 0 1093001).
Proof.
  apply (rateLimiter_window_reset (mkRateLimiter 1027000 10 1000000) 1093001);
    cbn; lia.
Defined.

Lemma rateLimiter_attempt_count (st : RateLimiter) (now : int) :
  0 <= callCount st <= 10 -> 0 <= callCount (attempt st now) <= 10.
Proof.
  intros Hc.
  unfold attempt, checkRateLimit, MIN_TIME_BETWEEN_CALLS, RATE_LIMIT_WINDOW,
    MAX_CALLS_PER_MINUTE.
  destruct (Z.ltb_spec (now - lastCallTime st) 2000); cbn [allowed]; [exact Hc|].
  destruct (Z.ltb_spec 60000 (now - windowStart st)); cbn [callCount].
  - cbn. lia.
  - destruct (Z.leb_spec 10 (callCount st)); cbn [allowed recordCall callCount];
      lia.
Qed.

(** When every call is recorded only after an allowed check, the call
    count never exceeds 10, and a check is allowed only 2000 ms or more
    after the last recorded call and only while fewer than 10 calls are
    counted in the window. *)
Theorem rateLimiter_protocol (t0 : int) (times : list int) (now : int) :
  0 <= callCount (attempts times (new t0)) <= 10 /\
  (allowed (fst (checkRateLimit now (attempts times (new t0)))) = true ->
     2000 <= now - lastCallTime (attempts times (new t0)) /\
     callCount (snd (checkRateLimit now (attempts times (new t0)))) < 10).
Proof.
  assert (Hgen : forall st, 0 <= callCount st <= 10 ->
                   0 <= callCount (attempts times st) <= 10).
  { induction times as [ | t times IH]; intros st Hst; [exact Hst|].
    cbn [attempts fold_left]. apply IH, rateLimiter_attempt_count, Hst. }
  split; [apply Hgen; cbn; lia|].
  set (st := attempts times (new t0)).
  unfold checkRateLimit, MIN_TIME_BETWEEN_CALLS, RATE_LIMIT_WINDOW,
    MAX_CALLS_PER_MINUTE.
  destruct (Z.ltb_spec (now - lastCallTime st) 2000); cbn [fst snd allowed];
    [discriminate|].
  destruct (Z.ltb_spec 60000 (now - windowStart st)); cbn [callCount].
  - cbn. intros _. lia.
  - destruct (Z.leb_spec 10 (callCount st)); cbn [fst snd allowed];
      [discriminate | intros _; lia].
Qed.

Lemma rateLimiter_protocol_witness :
  2000 <= 1003000 - lastCallTime (attempts (1000000 :: nil) (new 1000000)) /\
  callCount (snd (checkRateLimit 1003000
                    (attempts (1000000 :: nil) (new 1000000)))) < 10.
Proof.
  apply (proj2 (rateLimiter_protocol 1000000 (1000000 :: nil) 1003000)).
  reflexivity.
Defined.

End RateLimiterFacts.

(** * The application's use of the engine *)

Section AppFacts.

Import App.

Lemma Rltb_true (a b : R) : Rltb a b = true <-> a < b.
Proof. unfold Rltb. destruct (Rlt_dec a b); split; (discriminate || tauto). Qed.

Lemma Rleb_true (a b : R) : Rleb a b = true <-> a <= b.
Proof. unfold Rleb. destruct (Rle_dec a b); split; (discriminate || tauto). Qed.

Lemma Rltb_false (a b : R) : Rltb a b = false <-> b <= a.
Proof.
  unfold Rltb. destruct (Rlt_dec a b); split; try discriminate; try tauto; lra.
Qed.

Lemma Rleb_false (a b : R) : Rleb a b = false <-> b < a.
Proof.
  unfold Rleb. destruct (Rle_dec a b); split; try discriminate; try tauto; lra.
Qed.

(** The prompt never describes a node as "in superposition": that
    branch is shadowed by the "growing" one.  The reading is "core" from
    0.8 on, "growing" on [[0.4, 0.8)], "emerging" on [[0.1, 0.4)] and
    "faint" below 0.1. *)
Theorem probContext_cases (p : R) :
  probContext p <> superposition /\
  (probContext p = core <-> 0.8 <= p) /\
  (probContext p = growing <-> 0.4 <= p < 0.8) /\
  (probContext p = emerging <-> 0.1 <= p < 0.4) /\
  (probContext p = faint <-> p < 0.1).
Proof.
  unfold probContext.
  destruct (Rleb 0.8 p) eqn:E1;
    [apply Rleb_true in E1 | apply Rleb_false in E1];
  destruct (Rleb 0.4 p) eqn:E2;
    [apply Rleb_true in E2 | apply Rleb_false in E2 |
     apply Rleb_true in E2 | apply Rleb_false in E2];
  destruct (Rltb p 0.8) eqn:E3;
    try (apply Rltb_true in E3); try (apply Rltb_false in E3);
  destruct (Rleb 0.1 p) eqn:E4;
    try (apply Rleb_true in E4); try (apply Rleb_false in E4);
  destruct (Rltb p 0.4) eqn:E5;
    try (apply Rltb_true in E5); try (apply Rltb_false in E5);
  destruct (Rleb p 0.6) eqn:E6;
    try (apply Rleb_true in E6); try (apply Rleb_false in E6);
  cbn [andb]; try lra;
  (repeat split; try discriminate; try lra; intros; try reflexivity; try lra).
Qed.

Lemma normalized_probability_range (s : QuantumState) :
  normalized s -> 0 <= getProbability s <= 1.
Proof.
  unfold normalized. rewrite normSq_eq, getProbability_eq. intros Hn.
  pose proof (sumsq_nonneg (r (alpha s)) (i (alpha s))).
  pose proof (sumsq_nonneg (r (beta s)) (i (beta s))). lra.
Qed.

Lemma normalized_INITIAL_STATE : normalized INITIAL_STATE.
Proof. exact normalized_STATE_ZERO. Qed.

Lemma normalized_collapsedState (s : QuantumState) (roll : R) :
  normalized (collapsedState (measure s roll)).
Proof.
  unfold measure. destruct (Rlt_dec roll (getProbability s)); cbn [collapsedState].
  - exact normalized_STATE_ONE.
  - exact normalized_STATE_ZERO.
Qed.

(** Normalization is an invariant of the node list: when every node
    holds a normalized state, so does every node after a gate is applied
    to the selection, after the selection is measured, after a node is
    deleted and after a new node is appended; and every such node is
    drawn with a probability in [[0, 1]] and an opacity in [[0.4, 1]]. *)
Theorem app_nodes_stay_normalized
        (nodes : list QuantumNode) (selectedNodeId : option string)
        (gate : GateType) (roll : R) (id0 uuid lbl : string)
        (newNodeType : NodeType) (cx0 cy0 phaseRoll : R) :
  allNormalized nodes ->
  allNormalized (applyNodeGate selectedNodeId gate nodes) /\
  (forall nodes' o,
     measureNode selectedNodeId roll nodes = Some (nodes', o) ->
     allNormalized nodes') /\
  allNormalized (deleteNode_nodes id0 nodes) /\
  allNormalized
    (appendNode (createdNode uuid lbl newNodeType cx0 cy0 phaseRoll) nodes) /\
  (forall n, In n nodes ->
     0 <= probability n <= 1 /\ 0.4 <= opacity n <= 1).
Proof.
  unfold allNormalized. intros Hall.
  split; [ | split; [ | split; [ | split]]].
  - unfold applyNodeGate. destruct (selected selectedNodeId) as [sel | ];
      [ | exact Hall].
    intros n Hin. apply in_map_iff in Hin. destruct Hin as [n0 [<- Hin0]].
    destruct (String.eqb (id n0) sel); [ | apply Hall, Hin0].
    cbn [withState state]. apply applyGate_normalized_aux, Hall, Hin0.
  - intros nodes' o. unfold measureNode.
    destruct (selected selectedNodeId) as [sel | ]; [ | discriminate].
    destruct (find _ nodes) as [node | ]; [ | discriminate].
    intros Heq. injection Heq as <- _.
    intros n Hin. apply in_map_iff in Hin. destruct Hin as [n0 [<- Hin0]].
    destruct (String.eqb (id n0) sel); [ | apply Hall, Hin0].
    cbn [withState state]. apply normalized_collapsedState.
  - intros n Hin. unfold deleteNode_nodes in Hin.
    apply filter_In in Hin. apply Hall, Hin.
  - intros n Hin. unfold appendNode in Hin. apply in_app_iff in Hin.
    destruct Hin as [Hin | [<- | []]]; [apply Hall, Hin | ].
    exact normalized_INITIAL_STATE.
  - intros n Hin.
    pose proof (normalized_probability_range _ (Hall n Hin)) as Hp.
    unfold opacity, probability. split; [exact Hp | lra].
Qed.

Lemma app_nodes_stay_normalized_witness :
  allNormalized
    (applyNodeGate (Some "a"%string) H
       (createdNode "a" "Ada" person 60 70 (1 / 2) :: nil)).
Proof.
  apply (app_nodes_stay_normalized
           (createdNode "a" "Ada" person 60 70 (1 / 2) :: nil)
           (Some "a"%string) H (1 / 4) "a" "b" "Bob" dream 80 90 (1 / 3)).
  intros n [<- | []]. exact normalized_INITIAL_STATE.
Defined.

(** Deleting a node removes exactly the nodes with that id and exactly
    the links with that id at either end, so links that all joined
    existing nodes before still do afterwards. *)
Theorem deleteNode_no_dangling_links
        (id0 : string) (nodes : list QuantumNode)
        (links : list EntanglementLink) :
  linksResolved nodes links ->
  (forall n, In n (deleteNode_nodes id0 nodes) <-> In n nodes /\ id n <> id0) /\
  (forall l, In l (deleteNode_links id0 links) <->
             In l links /\ sourceId l <> id0 /\ targetId l <> id0) /\
  linksResolved (deleteNode_nodes id0 nodes) (deleteNode_links id0 links).
Proof.
  intros Hres.
  assert (Hn : forall n, In n (deleteNode_nodes id0 nodes)
                         <-> In n nodes /\ id n <> id0).
  { intros n. unfold deleteNode_nodes. rewrite filter_In, negb_true_iff.
    rewrite <- String.eqb_neq. tauto. }
  assert (Hl : forall l, In l (deleteNode_links id0 links) <->
                         In l links /\ sourceId l <> id0 /\ targetId l <> id0).
  { intros l. unfold deleteNode_links.
    rewrite filter_In, andb_true_iff, !negb_true_iff.
    rewrite <- !String.eqb_neq. tauto. }
  split; [exact Hn|]. split; [exact Hl|].
  intros l Hin. apply Hl in Hin. destruct Hin as [Hin [Hs Ht]].
  destruct (Hres l Hin) as [[s0 [Hs0 Es]] [t0 [Ht0 Et]]].
  split.
  - exists s0. split; [apply Hn; split; [exact Hs0 | congruence] | exact Es].
  - exists t0. split; [apply Hn; split; [exact Ht0 | congruence] | exact Et].
Qed.

Lemma deleteNode_no_dangling_links_witness :
  linksResolved
    (deleteNode_nodes "a"
       (createdNode "a" "Ada" person 60 70 (1 / 2)
        :: createdNode "b" "Bob" dream 80 90 (1 / 3) :: nil))
    (deleteNode_links "a" (mkLink "a" "b" 0.5 :: nil)).
Proof.
  apply (deleteNode_no_dangling_links "a"
           (createdNode "a" "Ada" person 60 70 (1 / 2)
            :: createdNode "b" "Bob" dream 80 90 (1 / 3) :: nil)
           (mkLink "a" "b" 0.5 :: nil)).
  intros l [<- | []]. split.
  - exists (createdNode "a" "Ada" person 60 70 (1 / 2)).
    split; [left; reflexivity | reflexivity].
  - exists (createdNode "b" "Bob" dream 80 90 (1 / 3)).
    split; [right; left; reflexivity | reflexivity].
Defined.

(** [applyNodeGate] keeps the ids, in order, and touches only nodes
    whose id is the selection; with one of the self-inverse gates H, X,
    Y, Z a second application restores the whole node list; with no
    selection, [null] or the empty string, it changes nothing. *)
Theorem applyNodeGate_selection_only
        (selectedNodeId : option string) (gate : GateType)
        (nodes : list QuantumNode) :
  map id (applyNodeGate selectedNodeId gate nodes) = map id nodes /\
  (forall n, In n nodes -> Some (id n) <> selected selectedNodeId ->
             In n (applyNodeGate selectedNodeId gate nodes)) /\
  (gate = H \/ gate = X \/ gate = Y \/ gate = Z ->
   applyNodeGate selectedNodeId gate (applyNodeGate selectedNodeId gate nodes)
   = nodes) /\
  (selectedNodeId = None \/ selectedNodeId = Some ""%string ->
   applyNodeGate selectedNodeId gate nodes = nodes).
Proof.
  assert (Hnone : selectedNodeId = None \/ selectedNodeId = Some ""%string ->
                  applyNodeGate selectedNodeId gate nodes = nodes).
  { intros [-> | ->]; reflexivity. }
  refine ((fun P => conj (proj1 P) (conj (proj1 (proj2 P))
                      (conj (proj2 (proj2 P)) Hnone))) _).
  clear Hnone. unfold applyNodeGate.
  destruct (selected selectedNodeId) as [sel | ]; [ | tauto].
  split; [ | split].
  - rewrite map_map. apply map_ext. intros n.
    destruct (String.eqb (id n) sel); reflexivity.
  - intros n Hin Hne. apply in_map_iff. exists n. split; [ | exact Hin].
    destruct (String.eqb_spec (id n) sel) as [E | E]; [congruence | reflexivity].
  - intros Hg. rewrite map_map. rewrite <- (map_id nodes) at 2.
    apply map_ext. intros n.
    destruct (String.eqb (id n) sel) eqn:E.
    + destruct n as [nid nlabel ntype nx ny nphase nstate].
      cbn [withState id label type x y phase state] in *. rewrite E.
      rewrite (applyGate_involutive_aux nstate gate Hg). reflexivity.
    + rewrite E. reflexivity.
Qed.

Lemma applyNodeGate_selection_only_witness :
  applyNodeGate (Some "a"%string) H
    (applyNodeGate (Some "a"%string) H
       (createdNode "a" "Ada" person 60 70 (1 / 2) :: nil))
  = createdNode "a" "Ada" person 60 70 (1 / 2) :: nil.
Proof.
  apply (proj1 (proj2 (proj2 (applyNodeGate_selection_only (Some "a"%string) H
           (createdNode "a" "Ada" person 60 70 (1 / 2) :: nil))))).
  left. reflexivity.
Defined.

End AppFacts.
